(** * Blocks native spatial partitioner (NativeOctree/SpatialPartitioner.{h,cpp})

    A shallow embedding of the dense AABB store of the Blocks native plugin:
    the SSE register type and the intrinsics the code calls, the [AABB]
    record with the entity id packed into the fourth lane of the max corner,
    the three predicates ([intersects], [intersectsOrig], [contains]) and the
    store operations of [SpatialPartitioner].

    Conventions.
    - A [float] and an [int32_t] are both carried as their 32-bit pattern, a
      [Z] in [0, 2^32) for a lane and a signed [Z] for an [int].  Arithmetic
      and comparisons on a lane go through the IEEE 754 binary32 reading of
      the pattern ([Binary32.decode]) and the Standard Library's [SpecFloat]
      operations at precision 24, maximal exponent 128.
    - [std::vector<AABB>] is a [list AABB]; [std::unordered_map<int,int>] is
      a [gmap Z Z].
    - Member functions run in a state-and-error monad over the partitioner;
      the error ([None]) is C++ undefined behaviour (an access outside a
      vector or outside the caller's buffer). *)

From Stdlib Require Import ZArith Lia Bool List.
From Stdlib Require Import Floats.SpecFloat.
From stdpp Require Import base option list gmap fin_maps.

Local Open Scope Z_scope.

(** ** IEEE 754 binary32 on bit patterns *)

Module Binary32.

Definition prec : Z := 24.
Definition emax : Z := 128.

(** The three fields of a pattern: sign (bit 31), biased exponent
    (bits 30..23), fraction (bits 22..0).  Bits above 31 are ignored. *)
Definition sign (w : Z) : bool := 2 ^ 31 <=? w mod 2 ^ 32.
Definition biased_exp (w : Z) : Z := (w / 2 ^ 23) mod 2 ^ 8.
Definition fraction (w : Z) : Z := w mod 2 ^ 23.

Definition join (s : bool) (e m : Z) : Z :=
  (if s then 2 ^ 31 else 0) + e * 2 ^ 23 + m.

Definition is_nan (w : Z) : bool :=
  (biased_exp w =? 255) && negb (fraction w =? 0).

(** The value denoted by a pattern.  [S754_nan] forgets the payload, which
    is why the operations below treat NaN operands on the pattern. *)
Definition decode (w : Z) : spec_float :=
  let s := sign w in
  let e := biased_exp w in
  let m := fraction w in
  if e =? 255 then
    if m =? 0 then S754_infinity s else S754_nan
  else if e =? 0 then
    match m with
    | Zpos p => S754_finite s p (-149)
    | _ => S754_zero s
    end
  else
    match m + 2 ^ 23 with
    | Zpos p => S754_finite s p (e - 150)
    | _ => S754_nan
    end.

(** The default NaN the SSE unit produces for an invalid operation. *)
Definition indefinite : Z := 0xFFC00000.

Definition encode (f : spec_float) : Z :=
  match f with
  | S754_zero s => join s 0 0
  | S754_infinity s => join s 255 0
  | S754_nan => indefinite
  | S754_finite s m e =>
      if Zpos m <? 2 ^ 23 then join s 0 (Zpos m)
      else join s (e + 150) (Zpos m - 2 ^ 23)
  end.

(** A NaN is signalling when the top bit of its fraction (bit 22) is
    clear.  An operation returns a NaN operand with that bit set. *)
Definition is_snan (w : Z) : bool := is_nan w && (fraction w <? 2 ^ 22).
Definition quiet (w : Z) : Z :=
  if fraction w <? 2 ^ 22 then w mod 2 ^ 32 + 2 ^ 22 else w mod 2 ^ 32.

(** ADDSS / SUBSS with the default MXCSR (round to nearest even, exceptions
    masked, no flush to zero): the first NaN operand wins, quieted. *)
Definition add (a b : Z) : Z :=
  if is_nan a then quiet a
  else if is_nan b then quiet b
  else encode (SFadd prec emax (decode a) (decode b)).

Definition sub (a b : Z) : Z :=
  if is_nan a then quiet a
  else if is_nan b then quiet b
  else encode (SFsub prec emax (decode a) (decode b)).

(** The ordered comparisons of C ([<], [>], [<=]) and of CMPLTPS: false as
    soon as one side is a NaN. *)
Definition lt (a b : Z) : bool := SFltb (decode a) (decode b).
Definition gt (a b : Z) : bool := SFltb (decode b) (decode a).
Definition le (a b : Z) : bool := SFleb (decode a) (decode b).

(** [reinterpret_cast<float &>(id)] and the way back: the two's complement
    pattern of an [int32_t]. *)
Definition of_int_bits (id : Z) : Z := id mod 2 ^ 32.
Definition to_int_bits (w : Z) : Z :=
  let u := w mod 2 ^ 32 in if u <? 2 ^ 31 then u else u - 2 ^ 32.

End Binary32.

Definition is_int32 (z : Z) : Prop := - 2 ^ 31 <= z < 2 ^ 31.
Definition is_word32 (w : Z) : Prop := 0 <= w < 2 ^ 32.

Definition INT_MIN : Z := - 2 ^ 31.

(** ** VectorTypes.h *)

Record Vector3 := { x : Z; y : Z; z : Z }.

(** ** The SSE register and the intrinsics used by the partitioner *)

Record m128 := { lane0 : Z; lane1 : Z; lane2 : Z; lane3 : Z }.

(** [v.m128_f32[i]] *)
Definition m128_f32 (v : m128) (i : nat) : Z :=
  match i with
  | 0%nat => lane0 v
  | 1%nat => lane1 v
  | 2%nat => lane2 v
  | _ => lane3 v
  end.

Definition lanewise (op : Z -> Z -> Z) (a b : m128) : m128 :=
  {| lane0 := op (lane0 a) (lane0 b); lane1 := op (lane1 a) (lane1 b);
     lane2 := op (lane2 a) (lane2 b); lane3 := op (lane3 a) (lane3 b) |}.

(** A true comparison fills the lane with ones. *)
Definition mask (b : bool) : Z := if b then 0xFFFFFFFF else 0.

Definition _mm_set_ps (e3 e2 e1 e0 : Z) : m128 :=
  {| lane0 := e0; lane1 := e1; lane2 := e2; lane3 := e3 |}.
Definition _mm_add_ps : m128 -> m128 -> m128 := lanewise Binary32.add.
Definition _mm_sub_ps : m128 -> m128 -> m128 := lanewise Binary32.sub.
Definition _mm_cmplt_ps : m128 -> m128 -> m128 :=
  lanewise (fun a b => mask (Binary32.lt a b)).
Definition _mm_cmpgt_ps : m128 -> m128 -> m128 :=
  lanewise (fun a b => mask (Binary32.gt a b)).
Definition _mm_or_ps : m128 -> m128 -> m128 := lanewise Z.lor.

(** The sign bits of the four lanes, lane 0 in bit 0. *)
Definition _mm_movemask_ps (v : m128) : Z :=
  Z.b2z (Z.testbit (lane0 v) 31) + 2 * Z.b2z (Z.testbit (lane1 v) 31)
  + 4 * Z.b2z (Z.testbit (lane2 v) 31) + 8 * Z.b2z (Z.testbit (lane3 v) 31).

Definition _MM_SHUFFLE (fp3 fp2 fp1 fp0 : Z) : Z :=
  Z.lor (Z.lor (Z.lor (Z.shiftl fp3 6) (Z.shiftl fp2 4)) (Z.shiftl fp1 2)) fp0.

Definition _mm_shuffle_ps (a b : m128) (imm : Z) : m128 :=
  let sel (v : m128) (k : Z) := m128_f32 v (Z.to_nat (Z.land (Z.shiftr imm k) 3)) in
  {| lane0 := sel a 0; lane1 := sel a 2; lane2 := sel b 4; lane3 := sel b 6 |}.

Definition _mm_castps_si128 (v : m128) : m128 := v.
Definition _mm_cvtsi128_si32 (v : m128) : Z := Binary32.to_int_bits (lane0 v).

(** ** SpatialPartitioner.h: struct AABB *)

Record AABB := { vecmax : m128; vecmin : m128 }.

(** [AABB::AABB(int32_t id, Vector3 center, Vector3 extents)] *)
Definition AABB_ctor (id : Z) (center extents : Vector3) : AABB :=
  let v_center :=
    _mm_set_ps (Binary32.of_int_bits id) (z center) (y center) (x center) in
  let v_extents := _mm_set_ps 0 (z extents) (y extents) (x extents) in
  {| vecmax := _mm_add_ps v_center v_extents;
     vecmin := _mm_sub_ps v_center v_extents |}.

(** ** SpatialPartitioner.cpp: the predicates *)

Definition intersects (volume0 volume1 : AABB) : bool :=
  let temp := _mm_cmplt_ps (vecmax volume0) (vecmin volume1) in
  let temp2 := _mm_cmpgt_ps (vecmin volume0) (vecmax volume1) in
  let temp := _mm_or_ps temp temp2 in
  Z.land (_mm_movemask_ps temp) 7 <=? 0.

(** The scalar loop [for (int i = 0; i < 3; i++)], leaving at the first
    separated axis. *)
Fixpoint intersectsOrig_loop (axes : list nat) (volume0 volume1 : AABB) : bool :=
  match axes with
  | [] => true
  | i :: rest =>
      if Binary32.lt (m128_f32 (vecmax volume0) i) (m128_f32 (vecmin volume1) i)
         || Binary32.gt (m128_f32 (vecmin volume0) i) (m128_f32 (vecmax volume1) i)
      then false
      else intersectsOrig_loop rest volume0 volume1
  end.

Definition intersectsOrig (volume0 volume1 : AABB) : bool :=
  intersectsOrig_loop [0%nat; 1%nat; 2%nat] volume0 volume1.

(** [contains] returns [int]: the comparison result converted to 0 or 1. *)
Definition contains (volume0 volume1 : AABB) : Z :=
  let temp := _mm_cmpgt_ps (vecmin volume0) (vecmin volume1) in
  let temp2 := _mm_cmplt_ps (vecmax volume0) (vecmax volume1) in
  let temp := _mm_or_ps temp temp2 in
  Z.b2z (Z.land (_mm_movemask_ps temp) 7 <=? 0).

Definition IdFromAABB (box : AABB) : Z :=
  let temp := _mm_shuffle_ps (vecmax box) (vecmax box) (_MM_SHUFFLE 3 3 3 3) in
  _mm_cvtsi128_si32 (_mm_castps_si128 temp).

(** Some single-precision constants. *)
Definition f_0_5 : Z := 0x3F000000.
Definition f_0_75 : Z := 0x3F400000.
Definition f_1_25 : Z := 0x3FA00000.
Definition f_1_75 : Z := 0x3FE00000.

(** ** SpatialPartitioner.h: class SpatialPartitioner *)

Record SpatialPartitioner := {
  elementVector : list AABB;
  idToIndex : gmap Z Z
}.

(** [SpatialPartitioner::SpatialPartitioner()] *)
Definition SpatialPartitioner_ctor : SpatialPartitioner :=
  {| elementVector := []; idToIndex := ∅ |}.

(** Integer conversions of the member functions: [(int)] of a [size_t] keeps
    the low 32 bits, read as signed; an [int] used as a [size_t] is taken
    modulo [2^64], as is [size() - 1]. *)
Definition int_cast (n : Z) : Z := (n + 2 ^ 31) mod 2 ^ 32 - 2 ^ 31.
Definition size_t_cast (i : Z) : Z := i mod 2 ^ 64.

(** *** The monad of member functions

    [None] is undefined behaviour. *)
Definition M (A : Type) : Type :=
  SpatialPartitioner -> option (A * SpatialPartitioner).

#[global] Instance M_ret : MRet M := fun A a s => Some (a, s).
#[global] Instance M_bind : MBind M := fun A B k m s =>
  match m s with
  | Some (a, s') => k a s'
  | None => None
  end.

Definition undefined {A : Type} : M A := fun _ => None.

Module vec.
(** [elementVector.size()] *)
Definition size : M Z :=
  fun s => Some (Z.of_nat (length (elementVector s)), s).
(** [elementVector[index]], read *)
Definition get (index : Z) : M AABB := fun s =>
  if (0 <=? index) && (index <? Z.of_nat (length (elementVector s))) then
    match elementVector s !! Z.to_nat index with
    | Some a => Some (a, s)
    | None => None
    end
  else None.
(** [elementVector[index] = a] *)
Definition set (index : Z) (a : AABB) : M unit := fun s =>
  if (0 <=? index) && (index <? Z.of_nat (length (elementVector s))) then
    Some (tt, {| elementVector := <[Z.to_nat index := a]> (elementVector s);
                 idToIndex := idToIndex s |})
  else None.
Definition push_back (a : AABB) : M unit := fun s =>
  Some (tt, {| elementVector := elementVector s ++ [a];
               idToIndex := idToIndex s |}).
Definition pop_back : M unit := fun s =>
  match elementVector s with
  | [] => None
  | _ => Some (tt, {| elementVector := removelast (elementVector s);
                      idToIndex := idToIndex s |})
  end.
Definition clear : M unit := fun s =>
  Some (tt, {| elementVector := []; idToIndex := idToIndex s |}).
End vec.

Module map.
(** [idToIndex[k]] read: a missing key is first inserted with value 0. *)
Definition subscript (k : Z) : M Z := fun s =>
  match idToIndex s !! k with
  | Some v => Some (v, s)
  | None => Some (0, {| elementVector := elementVector s;
                        idToIndex := <[k := 0]> (idToIndex s) |})
  end.
(** [idToIndex[k] = v] *)
Definition assign (k v : Z) : M unit := fun s =>
  Some (tt, {| elementVector := elementVector s;
               idToIndex := <[k := v]> (idToIndex s) |}).
Definition erase (k : Z) : M unit := fun s =>
  Some (tt, {| elementVector := elementVector s;
               idToIndex := delete k (idToIndex s) |}).
Definition clear : M unit := fun s =>
  Some (tt, {| elementVector := elementVector s; idToIndex := ∅ |}).
(** [idToIndex.find(k) != idToIndex.end()] *)
Definition found (k : Z) : M bool := fun s =>
  Some (bool_decide (is_Some (idToIndex s !! k)), s).
End map.

(** *** Mutations *)

Definition AddItem (itemId : Z) (itemBoundsCenter itemBoundsSize : Vector3) : M unit :=
  n ← vec.size;
  map.assign itemId (int_cast n);;
  vec.push_back (AABB_ctor itemId itemBoundsCenter itemBoundsSize).

Definition UpdateItem (itemId : Z) (itemBoundsCenter itemBoundsSize : Vector3) : M unit :=
  index ← map.subscript itemId;
  vec.set (size_t_cast index) (AABB_ctor itemId itemBoundsCenter itemBoundsSize).

(** The branch of [RemoveItem] taken when [elementVector.size() > 1]: the
    swap-with-last removal. *)
Definition RemoveItem_swap (itemId : Z) : M unit :=
  i ← map.subscript itemId;
  let index := size_t_cast i in
  n ← vec.size;
  if index =? size_t_cast (n - 1) then
    map.erase itemId;;
    vec.pop_back
  else
    last ← vec.get (size_t_cast (n - 1));
    let lastId := IdFromAABB last in
    vec.set index last;;
    vec.pop_back;;
    map.erase itemId;;
    map.assign lastId (int_cast index).

(** The other branch. *)
Definition RemoveItem_clear : M unit :=
  vec.clear;;
  map.clear.

Definition RemoveItem (itemId : Z) : M unit :=
  n ← vec.size;
  if 1 <? n then RemoveItem_swap itemId else RemoveItem_clear.

(** *** Queries

    [returnArray] is the caller's buffer, a [list Z] of its allocated
    length; a write outside it is undefined.  The three query loops of the
    source differ in the predicate only and share [scan], which walks the
    elements from [begin()] to [end()]. *)
Definition store_int (returnArray : list Z) (i v : Z) : option (list Z) :=
  if (0 <=? i) && (i <? Z.of_nat (length returnArray))
  then Some (<[Z.to_nat i := v]> returnArray)
  else None.

Fixpoint scan (pred : AABB -> AABB -> bool) (testAABB : AABB) (it : list AABB)
    (returnArray : list Z) (curNumResults returnArrayMaxSize : Z)
    : option (Z * list Z) :=
  match it with
  | [] => Some (curNumResults, returnArray)
  | elem :: rest =>
      if pred testAABB elem then
        match store_int returnArray curNumResults (IdFromAABB elem) with
        | None => None
        | Some returnArray' =>
            let curNumResults' := curNumResults + 1 in
            if returnArrayMaxSize <=? curNumResults'
            then Some (curNumResults', returnArray')
            else scan pred testAABB rest returnArray' curNumResults' returnArrayMaxSize
        end
      else scan pred testAABB rest returnArray curNumResults returnArrayMaxSize
  end.

Definition query (pred : AABB -> AABB -> bool) (testCenter testExtents : Vector3)
    (returnArray : list Z) (returnArrayMaxSize : Z) : M (Z * list Z) := fun s =>
  let id := -1 in
  let testAABB := AABB_ctor id testCenter testExtents in
  let curNumResults := 0 in
  match scan pred testAABB (elementVector s) returnArray curNumResults returnArrayMaxSize with
  | Some r => Some (r, s)
  | None => None
  end.

Definition ContainedBy : Vector3 -> Vector3 -> list Z -> Z -> M (Z * list Z) :=
  query (fun a b => negb (contains a b =? 0)).
Definition IntersectedBy : Vector3 -> Vector3 -> list Z -> Z -> M (Z * list Z) :=
  query intersects.
Definition IntersectedByOrig : Vector3 -> Vector3 -> list Z -> Z -> M (Z * list Z) :=
  query intersectsOrig.

Definition HasItem (itemHandle : Z) : M bool := map.found itemHandle.

(** Scenario A and B of the specification. *)
Definition origin : Vector3 := {| x := 0; y := 0; z := 0 |}.
Definition half : Vector3 := {| x := f_0_5; y := f_0_5; z := f_0_5 |}.
Definition far : Vector3 := {| x := f_1_25; y := f_1_25; z := f_1_25 |}.
(** The point (1, 0, 0): a box of extents 0.5 there shares the face x = 0.5
    with the box of scenario A. *)
Definition f_1_0 : Z := 0x3F800000.
Definition beside : Vector3 := {| x := f_1_0; y := 0; z := 0 |}.

Definition exec {A : Type} (m : M A) (s : SpatialPartitioner) : SpatialPartitioner :=
  match m s with
  | Some (_, s') => s'
  | None => s
  end.

Definition store1 : SpatialPartitioner := exec (AddItem 1 origin half) SpatialPartitioner_ctor.

(** ** Vocabulary of the properties *)

(** The data-model invariant of a box: on each of the three spatial axes the
    min corner is below or equal to the max corner (so neither is a NaN). *)
Definition ordered_corners (b : AABB) : bool :=
  forallb (fun i => Binary32.le (m128_f32 (vecmin b) i) (m128_f32 (vecmax b) i))
    [0%nat; 1%nat; 2%nat].

Definition f_m1_75 : Z := 0xBFE00000.
Definition inverted : Vector3 := {| x := f_m1_75; y := f_m1_75; z := f_m1_75 |}.

(** The patterns that an addition of [+0.0] leaves alone: every pattern but
    the negative zero and the signalling NaNs. *)
Definition lane_stable (w : Z) : bool :=
  negb (w =? 0x80000000) && negb (Binary32.is_snan w).
Definition id_stable (id : Z) : bool := lane_stable (Binary32.of_int_bits id).

(** The stored boxes a query box matches, in storage order, and their ids:
    what a query reports when its buffer does not run out. *)
Definition matching (pred : AABB -> AABB -> bool) (testCenter testExtents : Vector3)
    (s : SpatialPartitioner) : list AABB :=
  filter (fun a => pred (AABB_ctor (-1) testCenter testExtents) a = true)
    (elementVector s).

Definition matching_ids (pred : AABB -> AABB -> bool) (testCenter testExtents : Vector3)
    (s : SpatialPartitioner) : list Z :=
  IdFromAABB <$> matching pred testCenter testExtents s.

(** The ids a query wrote: the first [n] cells of the buffer it returns. *)
Definition reported (r : Z * list Z) : list Z := take (Z.to_nat (fst r)) (snd r).

(** *** The store invariants *)

(** The C++ types of the two members: the values of [idToIndex] are [int]s
    and the size of [elementVector] is a [size_t]. *)
Definition typed (s : SpatialPartitioner) : Prop :=
  (forall k v, idToIndex s !! k = Some v -> is_int32 v) /\
  Z.of_nat (length (elementVector s)) < 2 ^ 64.

(** (a) a mapped id addresses a slot whose packed id is that id;
    (b) the packed id of a slot is mapped to that slot, by that key only;
    (c) mapped indices lie in [0, length) and every slot is mapped. *)
Record store_inv (s : SpatialPartitioner) : Prop := {
  inv_key_slot : forall id i, idToIndex s !! id = Some i ->
    exists a, 0 <= i /\ elementVector s !! Z.to_nat i = Some a /\ IdFromAABB a = id;
  inv_slot_key : forall n a, elementVector s !! n = Some a ->
    idToIndex s !! IdFromAABB a = Some (Z.of_nat n) /\
    (forall k, idToIndex s !! k = Some (Z.of_nat n) -> k = IdFromAABB a);
  inv_dense :
    (forall id i, idToIndex s !! id = Some i ->
       0 <= i < Z.of_nat (length (elementVector s))) /\
    (forall n, (n < length (elementVector s))%nat ->
       exists id, idToIndex s !! id = Some (Z.of_nat n))
}.

(** Every stored box came out of the constructor. *)
Definition constructed (s : SpatialPartitioner) : Prop :=
  Forall (fun a => exists id c e, a = AABB_ctor id c e) (elementVector s).

(** The stored box of a live id. *)
Definition bounds_of (s : SpatialPartitioner) (id : Z) : option AABB :=
  i ← idToIndex s !! id; elementVector s !! Z.to_nat i.

(** *** Sequences of mutations *)

Inductive call :=
| CallAdd (itemId : Z) (center extents : Vector3)
| CallUpdate (itemId : Z) (center extents : Vector3)
| CallRemove (itemId : Z).

Definition run_call (c : call) : M unit :=
  match c with
  | CallAdd id center extents => AddItem id center extents
  | CallUpdate id center extents => UpdateItem id center extents
  | CallRemove id => RemoveItem id
  end.

(** Add of an id that is not present, update and remove of one that is. *)
Definition permitted (s : SpatialPartitioner) (c : call) : Prop :=
  match c with
  | CallAdd id _ _ => is_int32 id /\ idToIndex s !! id = None
  | CallUpdate id _ _ => is_int32 id /\ is_Some (idToIndex s !! id)
  | CallRemove id => is_int32 id /\ is_Some (idToIndex s !! id)
  end.

Inductive reaches : SpatialPartitioner -> list call -> SpatialPartitioner -> Prop :=
| reaches_nil s : reaches s [] s
| reaches_cons s c s' cs s'' :
    permitted s c -> run_call c s = Some (tt, s') -> reaches s' cs s'' ->
    reaches s (c :: cs) s''.

(** An add the 32-bit lanes and indices can carry: the id survives the
    float addition of the constructor and the new index fits an [int]. *)
Definition representable (s : SpatialPartitioner) (c : call) : Prop :=
  match c with
  | CallAdd id _ _ =>
      id_stable id = true /\ Z.of_nat (length (elementVector s)) < 2 ^ 31
  | _ => True
  end.

Inductive reaches_representable :
  SpatialPartitioner -> list call -> SpatialPartitioner -> Prop :=
| rr_nil s : reaches_representable s [] s
| rr_cons s c s' cs s'' :
    permitted s c -> representable s c -> run_call c s = Some (tt, s') ->
    reaches_representable s' cs s'' ->
    reaches_representable s (c :: cs) s''.

(** The three bounded-output queries and their predicates. *)
Inductive query_kind := Intersected | IntersectedOrig | Contained.

Definition predicate_of (q : query_kind) : AABB -> AABB -> bool :=
  match q with
  | Intersected => intersects
  | IntersectedOrig => intersectsOrig
  | Contained => fun a b => negb (contains a b =? 0)
  end.

Definition run_query (q : query_kind)
    : Vector3 -> Vector3 -> list Z -> Z -> M (Z * list Z) :=
  match q with
  | Intersected => IntersectedBy
  | IntersectedOrig => IntersectedByOrig
  | Contained => ContainedBy
  end.

(** Three copies of the box of scenario A, under the ids 1, 2 and 3. *)
Definition store123 : SpatialPartitioner :=
  exec (AddItem 3 origin half) (exec (AddItem 2 origin half) store1).

(** The store of scenario A after a second [AddItem] of the id 1. *)
Definition store11 : SpatialPartitioner := exec (AddItem 1 origin half) store1.

(** The store after [AddItem(INT_MIN, ...)] on the empty store. *)
Definition store_min : SpatialPartitioner :=
  exec (AddItem INT_MIN origin half) SpatialPartitioner_ctor.

(** ** SpatialPartitionManager.cpp and DllExports.cpp: the handle registry

    The two files define the same exported functions over the same two
    statics.  An exported function reaches its partitioner through
    [SpatialPartitionerMap[handle]], which first inserts a default
    constructed partitioner under a handle that is not in the map. *)

Record Registry := {
  SpatialPartitionerMap : gmap Z SpatialPartitioner;
  nextSpatialPartitionerId : Z
}.

(** The statics at program start. *)
Definition Registry_init : Registry :=
  {| SpatialPartitionerMap := ∅; nextSpatialPartitionerId := 0 |}.

Definition INT_MAX : Z := 2 ^ 31 - 1.

(** [int id = nextSpatialPartitionerId++; SpatialPartitionerMap[id] =
    SpatialPartitioner(); return id;].  The increment of an [int] that holds
    [INT_MAX] is undefined. *)
Definition AllocSpatialPartitioner (center size : Vector3)
    : Registry -> option (Z * Registry) := fun r =>
  let id := nextSpatialPartitionerId r in
  if id <? INT_MAX then
    Some (id, {| SpatialPartitionerMap :=
                   <[id := SpatialPartitioner_ctor]> (SpatialPartitionerMap r);
                 nextSpatialPartitionerId := id + 1 |})
  else None.

(** [SpatialPartitionerMap[handle].f(...)]: the member function runs on the
    partitioner stored under the handle, or on a fresh one that the
    subscript has just inserted. *)
Definition at_handle {A : Type} (handle : Z) (f : M A)
    : Registry -> option (A * Registry) := fun r =>
  let s := default SpatialPartitioner_ctor (SpatialPartitionerMap r !! handle) in
  match f s with
  | Some (a, s') =>
      Some (a, {| SpatialPartitionerMap := <[handle := s']> (SpatialPartitionerMap r);
                  nextSpatialPartitionerId := nextSpatialPartitionerId r |})
  | None => None
  end.

Definition SpatialPartitionerAddItem (SpatialPartitionerHandle itemId : Z)
    (itemBoundsCenter itemBoundsSize : Vector3) : Registry -> option (unit * Registry) :=
  at_handle SpatialPartitionerHandle (AddItem itemId itemBoundsCenter itemBoundsSize).

Definition SpatialPartitionerUpdateItem (SpatialPartitionerHandle itemId : Z)
    (itemBoundsCenter itemBoundsSize : Vector3) : Registry -> option (unit * Registry) :=
  at_handle SpatialPartitionerHandle (UpdateItem itemId itemBoundsCenter itemBoundsSize).

Definition SpatialPartitionerRemoveItem (SpatialPartitionerHandle itemId : Z)
    : Registry -> option (unit * Registry) :=
  at_handle SpatialPartitionerHandle (RemoveItem itemId).

Definition SpatialPartitionerContainedBy (SpatialPartitionerHandle : Z)
    (testCenter testExtents : Vector3) (returnArray : list Z) (returnArrayMaxSize : Z)
    : Registry -> option ((Z * list Z) * Registry) :=
  at_handle SpatialPartitionerHandle
    (ContainedBy testCenter testExtents returnArray returnArrayMaxSize).

Definition SpatialPartitionerIntersectedBy (SpatialPartitionerHandle : Z)
    (testCenter testExtents : Vector3) (returnArray : list Z) (returnArrayMaxSize : Z)
    : Registry -> option ((Z * list Z) * Registry) :=
  at_handle SpatialPartitionerHandle
    (IntersectedBy testCenter testExtents returnArray returnArrayMaxSize).

Definition SpatialPartitionerIntersectedByOrig (SpatialPartitionerHandle : Z)
    (testCenter testExtents : Vector3) (returnArray : list Z) (returnArrayMaxSize : Z)
    : Registry -> option ((Z * list Z) * Registry) :=
  at_handle SpatialPartitionerHandle
    (IntersectedByOrig testCenter testExtents returnArray returnArrayMaxSize).

(** The exported [HasItem] is declared [void]: the answer of the member
    function is dropped. *)
Definition SpatialPartitionerHasItem (SpatialPartitionerHandle itemHandle : Z)
    : Registry -> option (unit * Registry) := fun r =>
  match at_handle SpatialPartitionerHandle (HasItem itemHandle) r with
  | Some (_, r') => Some (tt, r')
  | None => None
  end.

(** The calls of the exported interface that act on one handle. *)
Inductive export_call :=
| ExpAdd (itemId : Z) (center extents : Vector3)
| ExpUpdate (itemId : Z) (center extents : Vector3)
| ExpRemove (itemId : Z)
| ExpContainedBy (center extents : Vector3) (returnArray : list Z) (maxSize : Z)
| ExpIntersectedBy (center extents : Vector3) (returnArray : list Z) (maxSize : Z)
| ExpIntersectedByOrig (center extents : Vector3) (returnArray : list Z) (maxSize : Z)
| ExpHasItem (itemHandle : Z).

(** What the caller gets back: nothing, or a count with the buffer. *)
Definition run_export (handle : Z) (c : export_call)
    : Registry -> option (option (Z * list Z) * Registry) := fun r =>
  let void (x : option (unit * Registry)) :=
    match x with Some (_, r') => Some (None, r') | None => None end in
  let counted (x : option ((Z * list Z) * Registry)) :=
    match x with Some (res, r') => Some (Some res, r') | None => None end in
  match c with
  | ExpAdd id ce ex => void (SpatialPartitionerAddItem handle id ce ex r)
  | ExpUpdate id ce ex => void (SpatialPartitionerUpdateItem handle id ce ex r)
  | ExpRemove id => void (SpatialPartitionerRemoveItem handle id r)
  | ExpContainedBy ce ex buf n =>
      counted (SpatialPartitionerContainedBy handle ce ex buf n r)
  | ExpIntersectedBy ce ex buf n =>
      counted (SpatialPartitionerIntersectedBy handle ce ex buf n r)
  | ExpIntersectedByOrig ce ex buf n =>
      counted (SpatialPartitionerIntersectedByOrig handle ce ex buf n r)
  | ExpHasItem item => void (SpatialPartitionerHasItem handle item r)
  end.

(** Every handle in the map was handed out by [AllocSpatialPartitioner]. *)
Definition handles_allocated (r : Registry) : Prop :=
  0 <= nextSpatialPartitionerId r /\
  forall h s, SpatialPartitionerMap r !! h = Some s ->
    0 <= h < nextSpatialPartitionerId r.

(** The registry after a subscript with [handle]: a handle that is not in
    the map now holds a default constructed partitioner. *)
Definition materialised (handle : Z) (r : Registry) : Registry :=
  {| SpatialPartitionerMap :=
       <[handle := default SpatialPartitioner_ctor (SpatialPartitionerMap r !! handle)]>
         (SpatialPartitionerMap r);
     nextSpatialPartitionerId := nextSpatialPartitionerId r |}.

(** ** FbxExporterDll.cpp: the colour channels

    [getR], [getG] and [getB] take one byte of a packed colour, convert it
    to [float] and divide by [255.0f]. *)

(** Conversion of an [int] to [float] (CVTSI2SS), rounding to nearest. *)
Definition float_of_int (k : Z) : Z :=
  Binary32.encode (binary_normalize Binary32.prec Binary32.emax k 0 false).

(** DIVSS, with the NaN rule of [Binary32.add]. *)
Definition float_div (a b : Z) : Z :=
  if Binary32.is_nan a then Binary32.quiet a
  else if Binary32.is_nan b then Binary32.quiet b
  else Binary32.encode
         (SFdiv Binary32.prec Binary32.emax (Binary32.decode a) (Binary32.decode b)).

Definition f_255_0 : Z := 0x437F0000.

Definition getR (raw : Z) : Z :=
  float_div (float_of_int (Z.land (Z.shiftr raw 16) 255)) f_255_0.
Definition getG (raw : Z) : Z :=
  float_div (float_of_int (Z.land (Z.shiftr raw 8) 255)) f_255_0.
Definition getB (raw : Z) : Z :=
  float_div (float_of_int (Z.land raw 255)) f_255_0.

(** ** Vocabulary of the further properties *)

(** Two boxes agree on the three spatial lanes of both corners. *)
Definition same_bounds (a b : AABB) : Prop :=
  forall i, (i < 3)%nat ->
    m128_f32 (vecmin a) i = m128_f32 (vecmin b) i /\
    m128_f32 (vecmax a) i = m128_f32 (vecmax b) i.

(** On some axis the max corner is below the min corner. *)
Definition inverted_axis (a : AABB) : bool :=
  existsb (fun i => Binary32.lt (m128_f32 (vecmax a) i) (m128_f32 (vecmin a) i))
    [0%nat; 1%nat; 2%nat].

(** The box in slot 0, if any. *)
Definition first_box (s : SpatialPartitioner) : option AABB :=
  elementVector s !! 0%nat.

Definition f_0_25 : Z := 0x3E800000.
Definition quarter : Vector3 := {| x := f_0_25; y := f_0_25; z := f_0_25 |}.
Definition wide : Vector3 := {| x := f_1_75; y := f_1_75; z := f_1_75 |}.

(** The ids whose pattern is neither the negative zero nor a signalling
    NaN, as ranges of [int]. *)
Definition carried_by_lane (id : Z) : Prop :=
  id <> INT_MIN /\
  ~ (0x7F800001 <= id <= 0x7FBFFFFF) /\
  ~ (-8388607 <= id <= -4194305).

(** The colour channel of a byte. *)
Definition channel (byte : Z) : Z := float_div (float_of_int byte) f_255_0.

(** The registry after one allocation and [AddItem(0, 1, ...)] with the box
    of scenario A, as the test program builds it. *)
Definition registry1 : Registry :=
  {| SpatialPartitionerMap := {[0 := store1]}; nextSpatialPartitionerId := 1 |}.
(** * Properties *)

(** ** Sanity checks of the embedding *)

Example add_half_half : Binary32.add f_0_5 f_0_5 = 0x3F800000.
Proof. reflexivity. Qed.

Example sub_125_05 : Binary32.sub f_1_25 f_0_5 = f_0_75.
Proof. reflexivity. Qed.

Example add_125_05 : Binary32.add f_1_25 f_0_5 = f_1_75.
Proof. reflexivity. Qed.

(** Round to nearest even at 2^24, overflow to infinity, a subnormal sum
    that becomes normal, infinity minus infinity, and the sum of the two
    zeros. *)
Example add_rounds_to_even :
  Binary32.add 0x4B800000 0x3F800000 = 0x4B800000 /\
  Binary32.add 0x4B800001 0x3F800000 = 0x4B800002.
Proof. split; reflexivity. Qed.

Example add_overflows : Binary32.add 0x7F7FFFFF 0x7F7FFFFF = 0x7F800000.
Proof. reflexivity. Qed.

Example add_subnormal : Binary32.add 0x007FFFFF 0x00000001 = 0x00800000.
Proof. reflexivity. Qed.

Example sub_infinities : Binary32.sub 0x7F800000 0x7F800000 = Binary32.indefinite.
Proof. reflexivity. Qed.

Example add_zeros : Binary32.add 0x80000000 0 = 0 /\ Binary32.sub 0x80000000 0 = 0x80000000.
Proof. split; reflexivity. Qed.

Example lt_ordered :
  Binary32.lt 0xC0000000 0xBF800000 = true /\
  Binary32.lt 0x80000000 0 = false /\
  Binary32.lt 0x7FC00000 0x3F800000 = false.
Proof. repeat split. Qed.

Example id_roundtrip_5 (c e : Vector3) : IdFromAABB (AABB_ctor 5 c e) = 5.
Proof. reflexivity. Qed.

Example id_roundtrip_m1 (c e : Vector3) : IdFromAABB (AABB_ctor (-1) c e) = -1.
Proof. reflexivity. Qed.

Example id_roundtrip_int_min (c e : Vector3) : IdFromAABB (AABB_ctor INT_MIN c e) = 0.
Proof. reflexivity. Qed.

Example scenario_A :
  IntersectedBy origin half [0; 0; 0; 0] 4 store1 = Some ((1, [1; 0; 0; 0]), store1).
Proof. reflexivity. Qed.

Example scenario_B :
  IntersectedBy far half [0; 0; 0; 0] 4 store1 = Some ((0, [0; 0; 0; 0]), store1).
Proof. reflexivity. Qed.

(** ** The predicates *)

Lemma testbit_or_mask (b b' : bool) :
  Z.testbit (Z.lor (mask b) (mask b')) 31 = b || b'.
Proof. destruct b, b'; reflexivity. Qed.

Lemma low3_clear (b0 b1 b2 b3 : bool) :
  (Z.land (Z.b2z b0 + 2 * Z.b2z b1 + 4 * Z.b2z b2 + 8 * Z.b2z b3) 7 <=? 0)
  = negb b0 && negb b1 && negb b2.
Proof. destruct b0, b1, b2, b3; reflexivity. Qed.

Lemma intersects_lanes (volume0 volume1 : AABB) :
  intersects volume0 volume1 =
  forallb (fun i =>
    negb (Binary32.lt (m128_f32 (vecmax volume0) i) (m128_f32 (vecmin volume1) i)
          || Binary32.gt (m128_f32 (vecmin volume0) i) (m128_f32 (vecmax volume1) i)))
    [0%nat; 1%nat; 2%nat].
Proof.
  unfold intersects, _mm_movemask_ps, _mm_or_ps, _mm_cmplt_ps, _mm_cmpgt_ps, lanewise.
  cbn [lane0 lane1 lane2 lane3 forallb m128_f32].
  rewrite !testbit_or_mask, low3_clear.
  rewrite andb_true_r, andb_assoc. reflexivity.
Qed.

Lemma intersectsOrig_loop_forallb (axes : list nat) (volume0 volume1 : AABB) :
  intersectsOrig_loop axes volume0 volume1 =
  forallb (fun i =>
    negb (Binary32.lt (m128_f32 (vecmax volume0) i) (m128_f32 (vecmin volume1) i)
          || Binary32.gt (m128_f32 (vecmin volume0) i) (m128_f32 (vecmax volume1) i)))
    axes.
Proof.
  induction axes as [|i rest IH]; [reflexivity|].
  cbn [intersectsOrig_loop forallb]. rewrite <- IH.
  destruct (_ || _); reflexivity.
Qed.

Example touching_boxes_intersect :
  intersects (AABB_ctor 1 origin half) (AABB_ctor 2 beside half) = true /\
  intersectsOrig (AABB_ctor 1 origin half) (AABB_ctor 2 beside half) = true.
Proof. split; reflexivity. Qed.

Example separated_boxes_do_not_intersect :
  intersects (AABB_ctor 1 origin half) (AABB_ctor 2 far half) = false /\
  intersectsOrig (AABB_ctor 1 origin half) (AABB_ctor 2 far half) = false.
Proof. split; reflexivity. Qed.

(** C1: the vectorized [intersects] and the scalar [intersectsOrig] return the
    same boolean on every pair of AABBs, whatever the lanes hold (touching
    or separated boxes, infinities, NaNs, and any id in the fourth lane). *)
Theorem intersects_eq_intersectsOrig (A B : AABB) :
  intersects A B = intersectsOrig A B.
Proof.
  rewrite intersects_lanes. unfold intersectsOrig.
  rewrite intersectsOrig_loop_forallb. reflexivity.
Qed.

(** The ordered comparison of [SpecFloat] is transitive on the values that
    are not NaN. *)
Ltac sf_order :=
  repeat match goal with
  | |- context [Z.compare ?a ?b] => destruct (Z.compare_spec a b)
  | H : context [Z.compare ?a ?b] |- _ => destruct (Z.compare_spec a b)
  | |- context [Pos.compare_cont Eq ?a ?b] =>
      change (Pos.compare_cont Eq a b) with (Pos.compare a b);
      destruct (Pos.compare_spec a b)
  | H : context [Pos.compare_cont Eq ?a ?b] |- _ =>
      change (Pos.compare_cont Eq a b) with (Pos.compare a b) in H;
      destruct (Pos.compare_spec a b)
  end;
  cbn in *; try discriminate; try reflexivity; try lia.

Lemma SFltb_leb_trans (a b c : spec_float) :
  SFltb a b = true -> SFleb b c = true -> SFltb a c = true.
Proof.
  unfold SFltb, SFleb, SFcompare.
  destruct a as [[]|[]| |[] ma ea], b as [[]|[]| |[] mb eb], c as [[]|[]| |[] mc ec];
    try discriminate; try reflexivity; intros Hab Hbc; sf_order.
Qed.

Lemma SFleb_ltb_trans (a b c : spec_float) :
  SFleb a b = true -> SFltb b c = true -> SFltb a c = true.
Proof.
  unfold SFltb, SFleb, SFcompare.
  destruct a as [[]|[]| |[] ma ea], b as [[]|[]| |[] mb eb], c as [[]|[]| |[] mc ec];
    try discriminate; try reflexivity; intros Hab Hbc; sf_order.
Qed.

Lemma contains_lanes (volume0 volume1 : AABB) :
  contains volume0 volume1 =
  Z.b2z (forallb (fun i =>
    negb (Binary32.gt (m128_f32 (vecmin volume0) i) (m128_f32 (vecmin volume1) i)
          || Binary32.lt (m128_f32 (vecmax volume0) i) (m128_f32 (vecmax volume1) i)))
    [0%nat; 1%nat; 2%nat]).
Proof.
  unfold contains, _mm_movemask_ps, _mm_or_ps, _mm_cmplt_ps, _mm_cmpgt_ps, lanewise.
  cbn [lane0 lane1 lane2 lane3 forallb m128_f32].
  rewrite !testbit_or_mask, low3_clear.
  rewrite andb_true_r, andb_assoc. reflexivity.
Qed.

(** On one axis: a box whose corners are ordered and that lies inside the
    interval of the other is not separated from it. *)
Lemma axis_inside_not_separated (min0 max0 min1 max1 : Z) :
  Binary32.le min1 max1 = true ->
  Binary32.gt min0 min1 || Binary32.lt max0 max1 = false ->
  Binary32.lt max0 min1 || Binary32.gt min0 max1 = false.
Proof.
  unfold Binary32.le, Binary32.gt, Binary32.lt.
  intros Hle [Hmin Hmax]%orb_false_elim.
  apply orb_false_intro.
  - destruct (SFltb (Binary32.decode max0) (Binary32.decode min1)) eqn:E; [|reflexivity].
    rewrite (SFltb_leb_trans _ _ _ E Hle) in Hmax. discriminate.
  - destruct (SFltb (Binary32.decode max1) (Binary32.decode min0)) eqn:E; [|reflexivity].
    rewrite (SFleb_ltb_trans _ _ _ Hle E) in Hmin. discriminate.
Qed.

(** C6, as the code has it: [contains A B] implies [intersects A B] when the
    corners of [B] are ordered on the three axes.  [A] is arbitrary. *)
Theorem contains_implies_intersects (A B : AABB) :
  ordered_corners B = true ->
  contains A B <> 0 ->
  intersects A B = true.
Proof.
  rewrite contains_lanes, intersects_lanes. unfold ordered_corners.
  cbn [forallb]. rewrite !andb_true_r.
  intros [H0 [H1 H2]%andb_prop]%andb_prop Hc.
  destruct (negb (Binary32.gt (m128_f32 (vecmin A) 0) (m128_f32 (vecmin B) 0) || _)) eqn:E0;
    [|exfalso; apply Hc; reflexivity].
  destruct (negb (Binary32.gt (m128_f32 (vecmin A) 1) (m128_f32 (vecmin B) 1) || _)) eqn:E1;
    [|exfalso; apply Hc; reflexivity].
  destruct (negb (Binary32.gt (m128_f32 (vecmin A) 2) (m128_f32 (vecmin B) 2) || _)) eqn:E2;
    [|exfalso; apply Hc; reflexivity].
  apply negb_true_iff in E0, E1, E2.
  rewrite (axis_inside_not_separated _ _ _ _ H0 E0).
  rewrite (axis_inside_not_separated _ _ _ _ H1 E1).
  rewrite (axis_inside_not_separated _ _ _ _ H2 E2).
  reflexivity.
Qed.

Lemma contains_implies_intersects_witness :
  ordered_corners (AABB_ctor 2 origin half) = true /\
  contains (AABB_ctor 1 origin half) (AABB_ctor 2 origin half) <> 0 /\
  intersects (AABB_ctor 1 origin half) (AABB_ctor 2 origin half) = true.
Proof.
  split; [reflexivity|]. split; [discriminate|].
  apply (contains_implies_intersects (AABB_ctor 1 origin half) (AABB_ctor 2 origin half)).
  - reflexivity.
  - discriminate.
Defined.

(** C6 as stated fails on a box with inverted corners, which the constructor
    builds from negative extents: [B] has min 1.75 and max -1.75 on every
    axis, [A] is the box [-0.5, 0.5]; no comparison of [contains] fires, and
    [A.max < B.min] separates them for [intersects]. *)
Lemma contains_without_intersects :
  contains (AABB_ctor 1 origin half) (AABB_ctor 2 origin inverted) = 1 /\
  intersects (AABB_ctor 1 origin half) (AABB_ctor 2 origin inverted) = false.
Proof. split; reflexivity. Qed.

(** ** Facts on binary32 patterns *)

Example quiet_snan : Binary32.quiet 0x7F800001 = 0x7FC00001.
Proof. reflexivity. Qed.
Example quiet_lor (w := 0xFFA12345) : Binary32.quiet w = Z.lor w 0x00400000.
Proof. reflexivity. Qed.
Example quiet_qnan : Binary32.quiet 0xFFFFFFFF = 0xFFFFFFFF.
Proof. reflexivity. Qed.

Module Binary32Facts.
Import Binary32.

Ltac fields :=
  unfold is_nan, is_snan, quiet, sign, biased_exp, fraction, join, indefinite,
    of_int_bits, to_int_bits, is_word32, is_int32 in *;
  change (2 ^ 32) with 4294967296 in *;
  change (2 ^ 31) with 2147483648 in *;
  change (2 ^ 23) with 8388608 in *;
  change (2 ^ 22) with 4194304 in *;
  change (2 ^ 8) with 256 in *.

Lemma fields_join (w : Z) :
  is_word32 w -> join (sign w) (biased_exp w) (fraction w) = w.
Proof.
  fields. intros Hw.
  destruct (Z.leb_spec 2147483648 (w mod 4294967296));
    Z.div_mod_to_equations; lia.
Qed.

Lemma fields_range (w : Z) :
  0 <= biased_exp w < 256 /\ 0 <= fraction w < 2 ^ 23.
Proof. fields. Z.div_mod_to_equations; lia. Qed.

Lemma encode_decode (w : Z) :
  is_word32 w -> is_nan w = false -> encode (decode w) = w.
Proof.
  intros Hw Hnan. pose proof (fields_join w Hw) as Hj.
  pose proof (fields_range w) as [He Hm].
  etransitivity; [|exact Hj]. clear Hj.
  unfold decode, is_nan in *.
  destruct (Z.eqb_spec (biased_exp w) 255) as [E|E].
  - destruct (Z.eqb_spec (fraction w) 0) as [F|F]; [|discriminate].
    cbn [encode]. rewrite E, F. reflexivity.
  - destruct (Z.eqb_spec (biased_exp w) 0) as [E0|E0].
    + destruct (fraction w) as [|p|p] eqn:F; cbn [encode].
      * rewrite E0. reflexivity.
      * destruct (Z.ltb_spec (Z.pos p) (2 ^ 23)); [|lia].
        rewrite E0. reflexivity.
      * lia.
    + destruct (fraction w + 2 ^ 23) as [|p|p] eqn:F; try lia.
      cbn [encode]. destruct (Z.ltb_spec (Z.pos p) (2 ^ 23)); [lia|].
      unfold join. change (2 ^ 23) with 8388608 in *. lia.
Qed.

Lemma of_int_bits_word (id : Z) : is_word32 (of_int_bits id).
Proof. fields. Z.div_mod_to_equations; lia. Qed.

Lemma to_int_bits_int (w : Z) : is_int32 (to_int_bits w).
Proof.
  fields. destruct (Z.ltb_spec (w mod 4294967296) 2147483648);
    Z.div_mod_to_equations; lia.
Qed.

Lemma to_of_int_bits (id : Z) : is_int32 id -> to_int_bits (of_int_bits id) = id.
Proof.
  fields. intros H.
  destruct (Z.ltb_spec ((id mod 4294967296) mod 4294967296) 2147483648);
    Z.div_mod_to_equations; lia.
Qed.

Lemma of_to_int_bits (w : Z) : is_word32 w -> of_int_bits (to_int_bits w) = w.
Proof.
  fields. intros H.
  destruct (Z.ltb_spec (w mod 4294967296) 2147483648);
    Z.div_mod_to_equations; lia.
Qed.

(** [x + 0.0] on a value that is not a NaN: the value itself, but for the
    negative zero, which becomes the positive one. *)
Lemma SFadd_pos_zero (f : spec_float) :
  SFadd prec emax f (S754_zero false) =
  match f with S754_zero true => S754_zero false | _ => f end.
Proof. destruct f as [[]|[]| |[] m e]; reflexivity. Qed.

Lemma add_zero_stable (w : Z) :
  is_word32 w -> lane_stable w = true -> add w 0 = w.
Proof.
  intros Hw [Hz Hs]%andb_prop. apply negb_true_iff in Hz, Hs.
  apply Z.eqb_neq in Hz.
  unfold add. destruct (is_nan w) eqn:Hnan.
  - unfold is_snan in Hs. rewrite Hnan in Hs. cbn in Hs.
    unfold quiet. rewrite Hs. fields. Z.div_mod_to_equations; lia.
  - change (is_nan 0) with false. cbn iota.
    change (decode 0) with (S754_zero false). rewrite SFadd_pos_zero.
    pose proof (encode_decode w Hw Hnan) as Hed.
    destruct (decode w) as [[]|[]| |[] m e]; try exact Hed.
    exfalso. apply Hz. rewrite <- Hed. reflexivity.
Qed.

Lemma add_zero_result (w : Z) :
  is_word32 w -> is_word32 (add w 0) /\ lane_stable (add w 0) = true.
Proof.
  intros Hw. unfold add. destruct (is_nan w) eqn:Hnan.
  - unfold lane_stable.
    assert (is_word32 (quiet w) /\ quiet w <> 2147483648
            /\ 4194304 <= fraction (quiet w)) as (Hr & Hne & Hq).
    { apply andb_prop in Hnan as [He Hf]. apply Z.eqb_eq in He.
      fields. destruct (Z.ltb_spec (w mod 8388608) 4194304);
        repeat split; Z.div_mod_to_equations; lia. }
    split; [exact Hr|]. apply andb_true_intro. split; apply negb_true_iff.
    + apply Z.eqb_neq. exact Hne.
    + unfold is_snan. apply andb_false_intro2. apply Z.ltb_ge. exact Hq.
  - change (is_nan 0) with false. cbn iota.
    change (decode 0) with (S754_zero false). rewrite SFadd_pos_zero.
    pose proof (encode_decode w Hw Hnan) as Hed.
    assert (Hst : w <> 2147483648 -> lane_stable w = true).
    { intros Hne. unfold lane_stable, is_snan. rewrite Hnan.
      apply Z.eqb_neq in Hne. rewrite Hne. reflexivity. }
    destruct (decode w) as [[]|[]| |[] m e] eqn:D; rewrite ?Hed;
      try (split; [exact Hw|apply Hst; intros ->; discriminate D]).
    split; [cbv; split; [discriminate|reflexivity]|reflexivity].
Qed.
End Binary32Facts.


(** ** The id lane *)

Lemma IdFromAABB_ctor (id : Z) (c e : Vector3) :
  IdFromAABB (AABB_ctor id c e)
  = Binary32.to_int_bits (Binary32.add (Binary32.of_int_bits id) 0).
Proof. reflexivity. Qed.

Lemma IdFromAABB_int32 (a : AABB) : is_int32 (IdFromAABB a).
Proof. apply Binary32Facts.to_int_bits_int. Qed.

(** Ids other than [INT_MIN] and the signalling-NaN patterns survive the
    constructor. *)
Lemma ctor_id_stable (id : Z) (c e : Vector3) :
  is_int32 id -> id_stable id = true -> IdFromAABB (AABB_ctor id c e) = id.
Proof.
  intros Hid Hst. rewrite IdFromAABB_ctor.
  rewrite Binary32Facts.add_zero_stable.
  - apply Binary32Facts.to_of_int_bits, Hid.
  - apply Binary32Facts.of_int_bits_word.
  - exact Hst.
Qed.

(** What the constructor packs is stable: packing it again changes nothing. *)
Lemma ctor_id_result_stable (id : Z) (c e : Vector3) :
  id_stable (IdFromAABB (AABB_ctor id c e)) = true.
Proof.
  rewrite IdFromAABB_ctor. unfold id_stable.
  destruct (Binary32Facts.add_zero_result (Binary32.of_int_bits id)
              (Binary32Facts.of_int_bits_word id)) as [Hw Hs].
  rewrite Binary32Facts.of_to_int_bits by exact Hw. exact Hs.
Qed.

Lemma ctor_id_idem (id : Z) (c e c' e' : Vector3) :
  IdFromAABB (AABB_ctor (IdFromAABB (AABB_ctor id c e)) c' e')
  = IdFromAABB (AABB_ctor id c e).
Proof.
  apply ctor_id_stable.
  - apply IdFromAABB_int32.
  - apply ctor_id_result_stable.
Qed.

(** C3 fails at [INT_MIN]: its pattern is the negative zero, and
    [-0.0 + 0.0] is the positive zero, whose pattern is the id 0. *)
Theorem id_lost_at_INT_MIN (center extents : Vector3) :
  is_int32 INT_MIN /\ IdFromAABB (AABB_ctor INT_MIN center extents) = 0.
Proof. split; [split; [reflexivity|reflexivity]|reflexivity]. Qed.

(** The same at a signalling NaN pattern, the id -8388607 (0xFF800001): the
    addition sets the quiet bit, and the id read back is -4194303. *)
Example id_lost_at_snan (center extents : Vector3) :
  IdFromAABB (AABB_ctor (-8388607) center extents) = -4194303.
Proof. reflexivity. Qed.

(** ** The bounded scan *)

Section Scan.
Variable pred : AABB -> AABB -> bool.
Variable testAABB : AABB.

Let hits (it : list AABB) : list AABB :=
  filter (fun a => pred testAABB a = true) it.

(** Without a match nothing is written, whatever the capacity. *)
Lemma scan_no_match (it : list AABB) (returnArray : list Z) (cur N : Z) :
  hits it = [] -> scan pred testAABB it returnArray cur N = Some (cur, returnArray).
Proof.
  induction it as [|elem rest IH]; intros Hh; [reflexivity|].
  unfold hits in Hh. rewrite filter_cons in Hh. cbn [scan].
  destruct (pred testAABB elem) eqn:E.
  - rewrite decide_True in Hh by reflexivity. discriminate.
  - rewrite decide_False in Hh by discriminate. apply IH, Hh.
Qed.

(** With room left ([cur < N <= length returnArray]) the scan writes the
    ids of the first [N - cur] matches at [cur], [cur + 1], ... *)
Lemma scan_spec (it : list AABB) (returnArray : list Z) (c : nat) (N : Z) :
  Z.of_nat c < N -> N <= Z.of_nat (length returnArray) ->
  let ids := IdFromAABB <$> take (Z.to_nat N - c) (hits it) in
  scan pred testAABB it returnArray (Z.of_nat c) N
  = Some (Z.of_nat (c + length ids),
          take c returnArray ++ ids ++ drop (c + length ids) returnArray).
Proof.
  revert returnArray c.
  induction it as [|elem rest IH]; intros buf c Hc HN; cbn zeta.
  - unfold hits. rewrite filter_nil, take_nil. cbn.
    rewrite Nat.add_0_r, take_drop. reflexivity.
  - unfold hits. rewrite filter_cons. cbn [scan].
    destruct (pred testAABB elem) eqn:E.
    + rewrite decide_True by reflexivity.
      unfold store_int.
      replace ((0 <=? Z.of_nat c) && (Z.of_nat c <? Z.of_nat (length buf)))
        with true by (symmetry; apply andb_true_intro; split; lia).
      rewrite Nat2Z.id.
      assert (Hlt : (c < length buf)%nat) by lia.
      destruct (Z.to_nat N - c)%nat as [|k] eqn:Hk; [lia|].
      cbn [take fmap list_fmap length].
      destruct (Z.leb_spec N (Z.of_nat c + 1)) as [Hfull|Hroom].
      * assert (k = 0%nat) as -> by lia. rewrite take_0. cbn [fmap list_fmap length app].
        f_equal. f_equal; [lia|].
        rewrite insert_take_drop by exact Hlt.
        replace (c + 1)%nat with (S c) by lia. reflexivity.
      * replace (Z.of_nat c + 1) with (Z.of_nat (S c)) by lia.
        rewrite (IH (<[c:=IdFromAABB elem]> buf) (S c)) by (rewrite ?length_insert; lia).
        replace (Z.to_nat N - S c)%nat with k by lia.
        fold (hits rest).
        set (ids := IdFromAABB <$> take k (hits rest)).
        f_equal. f_equal; [lia|].
        assert (Hins : <[c:=IdFromAABB elem]> buf
                       = (take c buf ++ [IdFromAABB elem]) ++ drop (S c) buf).
        { rewrite insert_take_drop by exact Hlt.
          rewrite <- app_assoc. reflexivity. }
        rewrite Hins.
        assert (Hl : length (take c buf ++ [IdFromAABB elem]) = S c)
          by (rewrite length_app, length_take; cbn; lia).
        rewrite take_app_length' by (symmetry; exact Hl).
        rewrite drop_app_ge by lia. rewrite Hl, drop_drop.
        rewrite <- !app_assoc. cbn [app]. do 4 f_equal. lia.
    + rewrite decide_False by discriminate.
      fold (hits rest). apply IH; assumption.
Qed.
End Scan.

(** ** Bounded-output queries *)

Lemma query_all (pred : AABB -> AABB -> bool) (c e : Vector3)
    (returnArray : list Z) (N : Z) (s : SpatialPartitioner) :
  Z.of_nat (length (matching pred c e s)) <= N ->
  N <= Z.of_nat (length returnArray) ->
  let ids := matching_ids pred c e s in
  query pred c e returnArray N s
  = Some ((Z.of_nat (length ids), ids ++ drop (length ids) returnArray), s).
Proof.
  intros HM HN ids. unfold query.
  destruct (matching pred c e s) as [|a l] eqn:Hm.
  - unfold matching in Hm. rewrite (scan_no_match _ _ _ _ _ _ Hm).
    subst ids. unfold matching_ids, matching. rewrite Hm. reflexivity.
  - cbn [length] in HM.
    rewrite (scan_spec pred _ (elementVector s) returnArray 0 N) by lia.
    fold (matching pred c e s).
    rewrite take_ge by (rewrite Hm; cbn [length]; lia).
    fold (matching_ids pred c e s). fold ids. reflexivity.
Qed.

Lemma query_bounded (pred : AABB -> AABB -> bool) (c e : Vector3)
    (returnArray : list Z) (N : Z) (s : SpatialPartitioner) :
  1 <= N ->
  N <= Z.of_nat (length returnArray) ->
  let ids := take (Z.to_nat N) (matching_ids pred c e s) in
  query pred c e returnArray N s
  = Some ((Z.min (Z.of_nat (length (matching pred c e s))) N,
           ids ++ drop (length ids) returnArray), s).
Proof.
  intros H1 HN ids. unfold query.
  rewrite (scan_spec pred _ (elementVector s) returnArray 0 N) by lia.
  fold (matching pred c e s). rewrite Nat.sub_0_r, fmap_take.
  fold (matching_ids pred c e s). fold ids. cbn [take app Nat.add].
  do 3 f_equal. subst ids. unfold matching_ids.
  rewrite length_take, length_fmap. lia.
Qed.

(** With a capacity of at least one, [IntersectedBy] returns [min M N], where
    [M] counts the stored boxes that intersect the query box; it writes the
    ids of the first [min M N] of them and leaves the rest of the buffer. *)
Lemma IntersectedBy_returns_min (c e : Vector3) (returnArray : list Z) (N : Z)
    (s : SpatialPartitioner) :
  1 <= N ->
  N <= Z.of_nat (length returnArray) ->
  exists out,
    IntersectedBy c e returnArray N s
    = Some ((Z.min (Z.of_nat (length (matching intersects c e s))) N, out), s)
    /\ reported (Z.min (Z.of_nat (length (matching intersects c e s))) N, out)
       = take (Z.to_nat N) (matching_ids intersects c e s)
    /\ drop (Z.to_nat N) out = drop (Z.to_nat N) returnArray.
Proof.
  intros H1 HN. unfold IntersectedBy. rewrite query_bounded by assumption.
  set (ids := take (Z.to_nat N) (matching_ids intersects c e s)).
  assert (Hlen : length ids
                 = Z.to_nat (Z.min (Z.of_nat (length (matching intersects c e s))) N)).
  { subst ids. unfold matching_ids. rewrite length_take, length_fmap. lia. }
  eexists. split; [reflexivity|]. split.
  - unfold reported. cbn [fst snd]. rewrite <- Hlen.
    rewrite take_app_length. reflexivity.
  - rewrite drop_app_ge by lia. rewrite drop_drop. f_equal. lia.
Qed.

(** C2 at capacity 0.  The store holds the one box of scenario A and the
    query box is that box, so one stored box intersects it.  The loop tests
    the capacity only after it has written a match: with a one-cell buffer
    the call returns 1 and has overwritten the cell, and with an empty
    buffer it writes outside it. *)
Theorem IntersectedBy_capacity_0 :
  matching_ids intersects origin half store1 = [1] /\
  IntersectedBy origin half [7] 0 store1 = Some ((1, [1]), store1) /\
  IntersectedBy origin half [] 0 store1 = None.
Proof. repeat split. Qed.

(** ** The store *)

Lemma in_range_true (i n : Z) : 0 <= i < n -> (0 <=? i) && (i <? n) = true.
Proof.
  intros [H0 Hn]. apply andb_true_intro.
  split; [apply Z.leb_le, H0|apply Z.ltb_lt, Hn].
Qed.

Lemma int_cast_id (n : Z) : is_int32 n -> int_cast n = n.
Proof.
  unfold int_cast, is_int32. change (2 ^ 31) with 2147483648.
  change (2 ^ 32) with 4294967296. intros H. Z.div_mod_to_equations; lia.
Qed.

Lemma int_cast_int32 (n : Z) : is_int32 (int_cast n).
Proof.
  unfold int_cast, is_int32. change (2 ^ 31) with 2147483648.
  change (2 ^ 32) with 4294967296. Z.div_mod_to_equations; lia.
Qed.

Lemma size_t_cast_id (n : Z) : 0 <= n < 2 ^ 64 -> size_t_cast n = n.
Proof. intros H. unfold size_t_cast. apply Z.mod_small, H. Qed.

(** The two facts that give the three invariants. *)
Lemma store_inv_intro (s : SpatialPartitioner) :
  (forall id i, idToIndex s !! id = Some i ->
     exists a, 0 <= i /\ elementVector s !! Z.to_nat i = Some a /\ IdFromAABB a = id) ->
  (forall n a, elementVector s !! n = Some a ->
     idToIndex s !! IdFromAABB a = Some (Z.of_nat n)) ->
  store_inv s.
Proof.
  intros Ha Hb. split.
  - exact Ha.
  - intros n a Hn. split; [apply Hb, Hn|].
    intros k Hk. destruct (Ha k _ Hk) as (a' & _ & Ha' & <-).
    rewrite Nat2Z.id in Ha'. congruence.
  - split.
    + intros id i Hi. destruct (Ha id i Hi) as (a & H0 & Hl & _).
      apply lookup_lt_Some in Hl. lia.
    + intros n Hn. destruct (lookup_lt_is_Some_2 _ _ Hn) as [a Hl].
      exists (IdFromAABB a). apply Hb, Hl.
Qed.

Lemma store_inv_empty : store_inv SpatialPartitioner_ctor.
Proof.
  apply store_inv_intro; cbn.
  - intros id i H. rewrite lookup_empty in H. discriminate.
  - intros n a H. rewrite lookup_nil in H. discriminate.
Qed.

(** In a one-element store the map is the singleton of the stored id. *)
Lemma store_inv_singleton (a : AABB) (m : gmap Z Z) (id : Z) :
  store_inv {| elementVector := [a]; idToIndex := m |} ->
  is_Some (m !! id) -> delete id m = ∅.
Proof.
  intros Hinv [i Hi]. apply map_eq. intros k. rewrite lookup_empty.
  destruct (decide (k = id)) as [->|Hne]; [apply lookup_delete_eq|].
  rewrite lookup_delete_ne by congruence.
  destruct (m !! k) as [j|] eqn:Hk; [exfalso|reflexivity].
  destruct (inv_key_slot _ Hinv _ _ Hk) as (a1 & ? & Hl1 & E1).
  destruct (inv_key_slot _ Hinv _ _ Hi) as (a2 & ? & Hl2 & E2).
  cbn in Hl1, Hl2.
  apply list_lookup_singleton_Some in Hl1 as [_ <-].
  apply list_lookup_singleton_Some in Hl2 as [_ <-].
  congruence.
Qed.

Lemma RemoveItem_present (s : SpatialPartitioner) (id i : Z) :
  store_inv s -> typed s -> idToIndex s !! id = Some i ->
  exists v0 last,
    elementVector s = v0 ++ [last] /\
    (Z.to_nat i <= length v0)%nat /\ 0 <= i /\
    RemoveItem id s
    = Some (tt,
        if decide (Z.to_nat i = length v0)
        then {| elementVector := v0; idToIndex := delete id (idToIndex s) |}
        else {| elementVector := <[Z.to_nat i := last]> v0;
                idToIndex := <[IdFromAABB last := i]> (delete id (idToIndex s)) |}).
Proof.
  destruct s as [v m]. cbn [elementVector idToIndex]. intros Hinv [Hty Hsz] Hi.
  pose proof (proj1 (inv_dense _ Hinv) _ _ Hi) as Hr. cbn in Hr.
  pose proof (Hty _ _ Hi) as Hi32. cbn in Hty, Hsz.
  assert (Hi64 : 0 <= i < 2 ^ 64)
    by (unfold is_int32 in Hi32; change (2 ^ 31) with 2147483648 in Hi32;
        change (2 ^ 64) with 18446744073709551616; lia).
  assert (Hn64 : forall n, 1 <= n -> n = Z.of_nat (length (v)) -> 0 <= n - 1 < 2 ^ 64) by lia.
  destruct v as [|a0 v1] using rev_ind; [cbn in Hr; lia|]. clear IHv1.
  rename v1 into v0, a0 into last. rewrite length_app in Hr, Hsz. cbn in Hr, Hsz.
  exists v0, last. split; [reflexivity|]. split; [lia|]. split; [lia|].
  unfold RemoveItem, mbind, M_bind, vec.size. cbn [elementVector idToIndex].
  rewrite length_app. cbn [length].
  destruct (Z.ltb_spec 1 (Z.of_nat (length v0 + 1))) as [Hbig|Hsmall].
  - unfold RemoveItem_swap, mbind, M_bind, map.subscript, vec.size.
    cbn [elementVector idToIndex]. rewrite Hi. cbn [elementVector idToIndex].
    rewrite length_app. cbn [length].
    rewrite (size_t_cast_id i) by exact Hi64.
    rewrite size_t_cast_id by (apply Hn64; [lia|rewrite length_app; cbn; lia]).
    destruct (Z.eqb_spec i (Z.of_nat (length v0 + 1) - 1)) as [Elast|Eswap].
    + rewrite decide_True by lia.
      unfold map.erase, vec.pop_back. cbn [elementVector idToIndex].
      destruct (v0 ++ [last]) eqn:Hv; [destruct v0; discriminate|].
      rewrite <- Hv, removelast_last. reflexivity.
    + rewrite decide_False by lia.
      unfold vec.get, vec.set, vec.pop_back, map.erase, map.assign.
      cbn [elementVector idToIndex].
      rewrite length_app. cbn [length]. clear Hn64 Hsz Hi64.
      rewrite in_range_true by lia.
      replace (Z.to_nat (Z.of_nat (length v0 + 1) - 1)) with (length v0 + 0)%nat by lia.
      rewrite lookup_app_r by lia.
      replace (length v0 + 0 - length v0)%nat with 0%nat by lia. cbn [lookup list_lookup].
      cbn [elementVector idToIndex].
      rewrite in_range_true by (rewrite length_app; cbn [length]; lia).
      cbn [elementVector idToIndex].
      rewrite insert_app_l by lia.
      destruct (<[Z.to_nat i:=last]> v0 ++ [last]) eqn:Hv;
        [destruct (<[Z.to_nat i:=last]> v0); discriminate|].
      rewrite <- Hv, removelast_last.
      rewrite int_cast_id by exact Hi32. reflexivity.
  - assert (v0 = []) as -> by (destruct v0; [reflexivity|cbn in Hsmall; lia]).
    cbn in Hr. rewrite decide_True by (cbn; lia).
    unfold RemoveItem_clear, mbind, M_bind, vec.clear, map.clear.
    cbn [elementVector idToIndex].
    rewrite (store_inv_singleton last m id Hinv) by (rewrite Hi; eauto).
    reflexivity.
Qed.

(** Consequences of the invariants. *)
Lemma inv_key_inj (s : SpatialPartitioner) (k k' j : Z) :
  store_inv s -> idToIndex s !! k = Some j -> idToIndex s !! k' = Some j -> k = k'.
Proof.
  intros Hinv Hk Hk'.
  destruct (inv_key_slot _ Hinv _ _ Hk) as (a & _ & Ha & <-).
  destruct (inv_key_slot _ Hinv _ _ Hk') as (a' & _ & Ha' & <-).
  congruence.
Qed.

Lemma inv_ids_NoDup (s : SpatialPartitioner) :
  store_inv s -> NoDup (IdFromAABB <$> elementVector s).
Proof.
  intros Hinv. apply NoDup_alt. intros n n' id Hn Hn'.
  apply list_lookup_fmap_Some in Hn as (a & -> & Ha).
  apply list_lookup_fmap_Some in Hn' as (a' & E & Ha').
  destruct (inv_slot_key _ Hinv _ _ Ha) as [Hk _].
  destruct (inv_slot_key _ Hinv _ _ Ha') as [Hk' _].
  rewrite <- E, Hk in Hk'. injection Hk'. lia.
Qed.

Lemma RemoveItem_effect (s : SpatialPartitioner) (id : Z) :
  store_inv s -> typed s -> is_Some (idToIndex s !! id) ->
  exists s' a,
    RemoveItem id s = Some (tt, s') /\
    IdFromAABB a = id /\
    elementVector s ≡ₚ a :: elementVector s' /\
    idToIndex s' !! id = None /\
    (forall j, j <> id ->
       bounds_of s' j = bounds_of s j /\
       (is_Some (idToIndex s !! j) -> is_Some (idToIndex s' !! j))) /\
    store_inv s' /\ typed s'.
Proof.
  intros Hinv Hty [i Hi].
  destruct (RemoveItem_present s id i Hinv Hty Hi) as (v0 & last & Hv & Hle & H0 & Hrun).
  pose proof (inv_key_slot _ Hinv) as F1.
  pose proof (fun n a H => proj1 (inv_slot_key _ Hinv n a H)) as F2.
  pose proof (fun k k' j => inv_key_inj s k k' j Hinv) as Inj.
  destruct Hty as [Hty Hsz].
  destruct s as [v m]. cbn [elementVector idToIndex] in *. subst v.
  assert (Hlast : m !! IdFromAABB last = Some (Z.of_nat (length v0))).
  { apply F2. rewrite lookup_app_r by lia. rewrite Nat.sub_diag. reflexivity. }
  rewrite length_app in Hsz. cbn [length] in Hsz.
  destruct (decide (Z.to_nat i = length v0)) as [Elast|Eswap].
  - (* the removed id sits in the last slot *)
    assert (Hi' : i = Z.of_nat (length v0)) by lia.
    assert (Hid : IdFromAABB last = id) by (apply (Inj _ _ i); congruence).
    eexists _, last. split; [exact Hrun|]. cbn [elementVector idToIndex].
    split; [exact Hid|]. split; [symmetry; apply Permutation_cons_append|].
    split; [apply lookup_delete_eq|].
    assert (Hold : forall k j, k <> id -> m !! k = Some j ->
              0 <= j /\ exists a, v0 !! Z.to_nat j = Some a /\ IdFromAABB a = k).
    { intros k j Hne Hk. destruct (F1 _ _ Hk) as (a & Hj0 & Ha & E).
      split; [exact Hj0|]. exists a. split; [|exact E].
      destruct (decide (Z.to_nat j = length v0)) as [Ej|Ej].
      - exfalso. apply Hne. apply (Inj _ _ j); [exact Hk|].
        rewrite Hi. f_equal. lia.
      - apply lookup_lt_Some in Ha as Hlt. rewrite length_app in Hlt. cbn in Hlt.
        rewrite lookup_app_l in Ha by lia. exact Ha. }
    split; [|split].
    + intros j Hne. unfold bounds_of. cbn [elementVector idToIndex].
      rewrite lookup_delete_ne by congruence. split; [|auto].
      destruct (m !! j) as [k|] eqn:Hk; [|reflexivity]. cbn.
      destruct (Hold j k Hne Hk) as (_ & a & Ha & _).
      rewrite Ha. symmetry. rewrite lookup_app_l by (eapply lookup_lt_Some, Ha).
      exact Ha.
    + apply store_inv_intro; cbn [elementVector idToIndex].
      * intros k j Hk. apply lookup_delete_Some in Hk as [Hne Hk].
        destruct (Hold k j (not_eq_sym Hne) Hk) as (Hj0 & a & Ha & E). eauto.
      * intros n a Ha. apply lookup_lt_Some in Ha as Hlt.
        rewrite lookup_delete_ne.
        -- apply F2. rewrite lookup_app_l by lia. exact Ha.
        -- intros E. assert (Hn : m !! id = Some (Z.of_nat n)).
           { rewrite E. apply F2. rewrite lookup_app_l by lia. exact Ha. }
           rewrite Hi in Hn. injection Hn. lia.
    + split; cbn [elementVector idToIndex]; [|lia].
      intros k j Hk. apply lookup_delete_Some in Hk as [_ Hk]. eapply Hty, Hk.
  - (* the last box moves into the slot of the removed id *)
    assert (Hlt : (Z.to_nat i < length v0)%nat) by lia.
    destruct (lookup_lt_is_Some_2 v0 _ Hlt) as [ai Hai].
    assert (Hid : IdFromAABB ai = id).
    { destruct (F1 _ _ Hi) as (a & _ & Ha & E).
      rewrite lookup_app_l in Ha by lia. congruence. }
    assert (Hne_last : IdFromAABB last <> id).
    { intros E. rewrite E, Hi in Hlast. injection Hlast. lia. }
    eexists _, ai. split; [exact Hrun|]. cbn [elementVector idToIndex].
    split; [exact Hid|]. split.
    { rewrite insert_take_drop by exact Hlt.
      rewrite <- (take_drop_middle v0 _ ai Hai) at 1.
      rewrite <- app_assoc. cbn [app].
      rewrite <- !Permutation_middle. rewrite app_nil_r. reflexivity. }
    split.
    { rewrite lookup_insert_ne by exact Hne_last. apply lookup_delete_eq. }
    assert (Hold : forall k j, k <> id -> k <> IdFromAABB last -> m !! k = Some j ->
              0 <= j /\ Z.to_nat j <> Z.to_nat i /\
              exists a, v0 !! Z.to_nat j = Some a /\ IdFromAABB a = k).
    { intros k j Hne Hnl Hk. destruct (F1 _ _ Hk) as (a & Hj0 & Ha & E).
      split; [exact Hj0|]. split.
      - intros Ej. apply Hne. apply (Inj _ _ j); [exact Hk|].
        rewrite Hi. f_equal. lia.
      - exists a. split; [|exact E].
        destruct (decide (Z.to_nat j = length v0)) as [Ej|Ej].
        + exfalso. apply Hnl. apply (Inj _ _ j); [exact Hk|].
          rewrite Hlast. f_equal. lia.
        + apply lookup_lt_Some in Ha as Hl. rewrite length_app in Hl. cbn in Hl.
          rewrite lookup_app_l in Ha by lia. exact Ha. }
    split; [|split].
    + intros j Hne. unfold bounds_of. cbn [elementVector idToIndex].
      destruct (decide (j = IdFromAABB last)) as [->|Hnl].
      * rewrite lookup_insert_eq, Hlast. cbn. split; [|eauto].
        rewrite list_lookup_insert_eq by exact Hlt.
        rewrite Nat2Z.id, lookup_app_r by lia.
        rewrite Nat.sub_diag. reflexivity.
      * rewrite lookup_insert_ne by congruence.
        rewrite lookup_delete_ne by congruence. split; [|auto].
        destruct (m !! j) as [k|] eqn:Hk; [|reflexivity]. cbn.
        destruct (Hold j k Hne Hnl Hk) as (_ & Hki & a & Ha & _).
        rewrite list_lookup_insert_ne by congruence.
        rewrite lookup_app_l by (eapply lookup_lt_Some, Ha). reflexivity.
    + apply store_inv_intro; cbn [elementVector idToIndex].
      * intros k j Hk. apply lookup_insert_Some in Hk as [[<- <-]|[Hnl Hk]].
        -- exists last. split; [exact H0|].
           split; [apply list_lookup_insert_eq, Hlt|reflexivity].
        -- apply lookup_delete_Some in Hk as [Hne Hk].
           destruct (Hold k j (not_eq_sym Hne) (not_eq_sym Hnl) Hk)
             as (Hj0 & Hji & a & Ha & E).
           exists a. split; [exact Hj0|].
           split; [rewrite list_lookup_insert_ne by congruence; exact Ha|exact E].
      * intros n a Ha. destruct (decide (n = Z.to_nat i)) as [->|Hn].
        -- rewrite list_lookup_insert_eq in Ha by exact Hlt.
           injection Ha as <-. rewrite lookup_insert_eq. f_equal. lia.
        -- rewrite list_lookup_insert_ne in Ha by congruence.
           apply lookup_lt_Some in Ha as Hl.
           assert (Hm : m !! IdFromAABB a = Some (Z.of_nat n))
             by (apply F2; rewrite lookup_app_l by lia; exact Ha).
           rewrite lookup_insert_ne, lookup_delete_ne; [exact Hm| |].
           ++ intros E. rewrite E, Hm in Hi. injection Hi. lia.
           ++ intros E. rewrite E, Hm in Hlast. injection Hlast. lia.
    + split; cbn [elementVector idToIndex]; [|rewrite length_insert; lia].
      intros k j Hk. apply lookup_insert_Some in Hk as [[_ <-]|[_ Hk]].
      * eapply Hty, Hi.
      * apply lookup_delete_Some in Hk as [_ Hk]. eapply Hty, Hk.
Qed.

Lemma AddItem_run (id : Z) (c e : Vector3) (s : SpatialPartitioner) :
  AddItem id c e s
  = Some (tt, {| elementVector := elementVector s ++ [AABB_ctor id c e];
                 idToIndex := <[id := int_cast (Z.of_nat (length (elementVector s)))]>
                                (idToIndex s) |}).
Proof. reflexivity. Qed.

Lemma UpdateItem_present (id i : Z) (c e : Vector3) (s : SpatialPartitioner) :
  store_inv s -> typed s -> idToIndex s !! id = Some i ->
  UpdateItem id c e s
  = Some (tt, {| elementVector := <[Z.to_nat i := AABB_ctor id c e]> (elementVector s);
                 idToIndex := idToIndex s |}).
Proof.
  intros Hinv [Hty Hsz] Hi.
  pose proof (proj1 (inv_dense _ Hinv) _ _ Hi) as Hr.
  unfold UpdateItem, mbind, M_bind, map.subscript. rewrite Hi.
  rewrite size_t_cast_id by lia.
  unfold vec.set. rewrite in_range_true by exact Hr. reflexivity.
Qed.

(** A stored box that the constructor built has a stable packed id. *)
Lemma constructed_id_stable (a : AABB) (c e : Vector3) :
  (exists id0 c0 e0, a = AABB_ctor id0 c0 e0) ->
  IdFromAABB (AABB_ctor (IdFromAABB a) c e) = IdFromAABB a.
Proof. intros (id0 & c0 & e0 & ->). apply ctor_id_idem. Qed.

Section Preservation.
Variable s : SpatialPartitioner.
Hypothesis Hinv : store_inv s.
Hypothesis Hty : typed s.
Hypothesis Hcons : constructed s.

Lemma AddItem_preserves (id : Z) (c e : Vector3) :
  permitted s (CallAdd id c e) -> representable s (CallAdd id c e) ->
  forall s', AddItem id c e s = Some (tt, s') ->
  store_inv s' /\ typed s' /\ constructed s'.
Proof.
  intros [Hid Hfresh] [Hst Hlen] s' Hrun. rewrite AddItem_run in Hrun.
  injection Hrun as <-.
  assert (Hn : int_cast (Z.of_nat (length (elementVector s)))
               = Z.of_nat (length (elementVector s))).
  { apply int_cast_id. unfold is_int32. change (2 ^ 31) with 2147483648 in *. lia. }
  rewrite Hn.
  assert (Hnew : IdFromAABB (AABB_ctor id c e) = id) by (apply ctor_id_stable; assumption).
  split; [|split].
  - apply store_inv_intro; cbn [elementVector idToIndex].
    + intros k j Hk. apply lookup_insert_Some in Hk as [[<- <-]|[Hne Hk]].
      * exists (AABB_ctor id c e). split; [lia|]. split; [|exact Hnew].
        rewrite Nat2Z.id, lookup_app_r by lia.
        rewrite Nat.sub_diag. reflexivity.
      * destruct (inv_key_slot _ Hinv _ _ Hk) as (a & Hj0 & Ha & E).
        exists a. split; [exact Hj0|]. split; [|exact E].
        rewrite lookup_app_l by (eapply lookup_lt_Some, Ha). exact Ha.
    + intros n a Ha. apply lookup_app_Some in Ha as [Ha|[Hge Ha]].
      * destruct (inv_slot_key _ Hinv _ _ Ha) as [Hk _].
        rewrite lookup_insert_ne; [exact Hk|]. intros E.
        rewrite <- E, Hfresh in Hk. discriminate.
      * apply list_lookup_singleton_Some in Ha as [Hn0 <-].
        rewrite Hnew, lookup_insert_eq. f_equal. lia.
  - destruct Hty as [Hv Hsz]. split; cbn [elementVector idToIndex].
    + intros k j Hk. apply lookup_insert_Some in Hk as [[_ <-]|[_ Hk]].
      * unfold is_int32. change (2 ^ 31) with 2147483648 in *. lia.
      * eapply Hv, Hk.
    + rewrite length_app. cbn [length].
      change (2 ^ 64) with 18446744073709551616.
      change (2 ^ 31) with 2147483648 in *. lia.
  - unfold constructed. cbn [elementVector]. apply Forall_app. split; [exact Hcons|].
    apply Forall_singleton. eauto.
Qed.

Lemma UpdateItem_preserves (id : Z) (c e : Vector3) :
  permitted s (CallUpdate id c e) ->
  exists s', UpdateItem id c e s = Some (tt, s') /\
             store_inv s' /\ typed s' /\ constructed s'.
Proof.
  intros [Hid [i Hi]]. rewrite (UpdateItem_present id i c e s Hinv Hty Hi).
  eexists. split; [reflexivity|].
  destruct (inv_key_slot _ Hinv _ _ Hi) as (old & Hi0 & Hold & Eold).
  apply lookup_lt_Some in Hold as Hlt.
  assert (Hnew : IdFromAABB (AABB_ctor id c e) = id).
  { rewrite <- Eold. apply constructed_id_stable.
    eapply (proj1 (Forall_lookup _ _) Hcons), Hold. }
  split; [|split].
  - apply store_inv_intro; cbn [elementVector idToIndex].
    + intros k j Hk. destruct (inv_key_slot _ Hinv _ _ Hk) as (a & Hj0 & Ha & E).
      destruct (decide (Z.to_nat j = Z.to_nat i)) as [Ej|Ej].
      * exists (AABB_ctor id c e). split; [exact Hj0|].
        rewrite Ej. split; [apply list_lookup_insert_eq, Hlt|].
        rewrite Hnew. apply (inv_key_inj s _ _ i Hinv Hi).
        rewrite Hk. f_equal. lia.
      * exists a. split; [exact Hj0|].
        rewrite list_lookup_insert_ne by congruence. auto.
    + intros n a Ha. destruct (decide (n = Z.to_nat i)) as [->|Hn].
      * rewrite list_lookup_insert_eq in Ha by exact Hlt. injection Ha as <-.
        rewrite Hnew, Hi. f_equal. lia.
      * rewrite list_lookup_insert_ne in Ha by congruence.
        apply (inv_slot_key _ Hinv _ _ Ha).
  - destruct Hty as [Hv Hsz]. split; cbn [elementVector idToIndex]; [exact Hv|].
    rewrite length_insert. exact Hsz.
  - unfold constructed. cbn [elementVector]. apply Forall_insert; [exact Hcons|eauto].
Qed.

Lemma RemoveItem_preserves (id : Z) :
  permitted s (CallRemove id) ->
  exists s', RemoveItem id s = Some (tt, s') /\
             store_inv s' /\ typed s' /\ constructed s'.
Proof.
  intros [Hid Hpres].
  destruct (RemoveItem_effect s id Hinv Hty Hpres)
    as (s' & a & Hrun & _ & Hperm & _ & _ & Hinv' & Hty').
  exists s'. split; [exact Hrun|]. split; [exact Hinv'|]. split; [exact Hty'|].
  unfold constructed in *. rewrite Hperm in Hcons.
  apply Forall_cons in Hcons as [_ H]. exact H.
Qed.
End Preservation.

Lemma typed_empty : typed SpatialPartitioner_ctor.
Proof.
  split; cbn.
  - intros k v H. rewrite lookup_empty in H. discriminate.
  - reflexivity.
Qed.

(** The three invariants hold after every sequence of permitted calls from
    the empty store, as long as the added ids are carried unchanged by the
    id lane and the store stays below [2^31] boxes. *)
Lemma invariants_of_representable_calls (cs : list call) (s0 s : SpatialPartitioner) :
  reaches_representable s0 cs s ->
  store_inv s0 /\ typed s0 /\ constructed s0 ->
  store_inv s /\ typed s /\ constructed s.
Proof.
  induction 1 as [s|s c s' cs s'' Hperm Hrep Hrun _ IH]; [tauto|].
  intros (Hinv & Hty & Hcons). apply IH. clear IH.
  destruct c as [id ce ex|id ce ex|id]; cbn [run_call] in Hrun.
  - eapply AddItem_preserves; eassumption.
  - destruct (UpdateItem_preserves s Hinv Hty Hcons id ce ex Hperm) as (s1 & Hr & H).
    rewrite Hr in Hrun. injection Hrun as <-. exact H.
  - destruct (RemoveItem_preserves s Hinv Hty Hcons id Hperm) as (s1 & Hr & H).
    rewrite Hr in Hrun. injection Hrun as <-. exact H.
Qed.

Lemma run_query_eq (q : query_kind) : run_query q = query (predicate_of q).
Proof. destruct q; reflexivity. Qed.

Lemma reported_query_all (ids rest : list Z) :
  reported (Z.of_nat (length ids), ids ++ rest) = ids.
Proof.
  unfold reported. cbn [fst snd]. rewrite Nat2Z.id. apply take_app_length.
Qed.

Lemma filter_other_ids (id : Z) (l : list AABB) :
  id ∉ IdFromAABB <$> l ->
  filter (fun j => j <> id) (IdFromAABB <$> l) = IdFromAABB <$> l.
Proof.
  induction l as [|a l IH]; [reflexivity|]. cbn [fmap list_fmap].
  intros Hn. apply not_elem_of_cons in Hn as [Hne Hn].
  rewrite filter_cons_True by congruence. f_equal. apply IH, Hn.
Qed.

(** Removing the box of [id] from the store removes [id], and nothing else,
    from what an unbounded scan matches. *)
Lemma matching_ids_removed (pred : AABB -> AABB -> bool) (c e : Vector3)
    (s s' : SpatialPartitioner) (a : AABB) :
  store_inv s ->
  elementVector s ≡ₚ a :: elementVector s' ->
  matching_ids pred c e s' ≡ₚ filter (fun j => j <> IdFromAABB a) (matching_ids pred c e s)
  /\ (length (matching pred c e s') <= length (matching pred c e s))%nat.
Proof.
  intros Hinv Hperm.
  pose proof (inv_ids_NoDup s Hinv) as Hnd. rewrite Hperm in Hnd.
  cbn [fmap list_fmap] in Hnd. apply NoDup_cons in Hnd as [Hnotin _].
  unfold matching_ids, matching. rewrite Hperm.
  set (P := fun b => pred (AABB_ctor (-1) c e) b = true).
  assert (Hsub : IdFromAABB a ∉ IdFromAABB <$> filter P (elementVector s')).
  { intros Hin. apply Hnotin. apply list_elem_of_fmap in Hin as (b & -> & Hb).
    apply list_elem_of_filter in Hb as [_ Hb]. apply list_elem_of_fmap. eauto. }
  rewrite filter_cons. destruct (decide (P a)).
  - cbn [fmap list_fmap length]. rewrite filter_cons_False by (intros H; apply H; reflexivity).
    rewrite filter_other_ids by exact Hsub. split; [reflexivity|lia].
  - rewrite filter_other_ids by exact Hsub. split; [reflexivity|lia].
Qed.

(** Adding a fresh id and removing it again: the vector is back to what it
    was and the id is gone.  No invariant is needed. *)
Lemma AddItem_RemoveItem (s : SpatialPartitioner) (id : Z) (c e : Vector3) :
  Z.of_nat (length (elementVector s)) < 2 ^ 31 ->
  exists s1 s2,
    AddItem id c e s = Some (tt, s1) /\
    RemoveItem id s1 = Some (tt, s2) /\
    elementVector s2 = elementVector s /\
    idToIndex s2 !! id = None.
Proof.
  intros Hlen. change (2 ^ 31) with 2147483648 in Hlen.
  destruct s as [v m]. cbn [elementVector idToIndex] in *.
  exists {| elementVector := v ++ [AABB_ctor id c e];
            idToIndex := <[id := int_cast (Z.of_nat (length v))]> m |}.
  assert (Hn : int_cast (Z.of_nat (length v)) = Z.of_nat (length v)).
  { apply int_cast_id. unfold is_int32. change (2 ^ 31) with 2147483648. lia. }
  rewrite Hn.
  unfold RemoveItem, mbind, M_bind, vec.size. cbn [elementVector idToIndex].
  rewrite length_app. cbn [length].
  destruct (Z.ltb_spec 1 (Z.of_nat (length v + 1))) as [Hbig|Hsmall].
  - unfold RemoveItem_swap, mbind, M_bind, map.subscript, vec.size.
    cbn [elementVector idToIndex]. rewrite lookup_insert_eq.
    cbn [elementVector idToIndex]. rewrite length_app. cbn [length].
    rewrite !size_t_cast_id by (change (2 ^ 64) with 18446744073709551616; lia).
    rewrite (proj2 (Z.eqb_eq _ _)) by lia.
    unfold map.erase, vec.pop_back. cbn [elementVector idToIndex].
    destruct (v ++ [AABB_ctor id c e]) eqn:Hv; [destruct v; discriminate|].
    rewrite <- Hv, removelast_last.
    eexists. split; [rewrite AddItem_run; cbn [elementVector idToIndex]; rewrite Hn; reflexivity|].
    split; [reflexivity|].
    cbn [elementVector idToIndex]. split; [reflexivity|apply lookup_delete_eq].
  - assert (v = []) as -> by (destruct v; [reflexivity|cbn in Hsmall; lia]).
    eexists. split; [reflexivity|]. split; [reflexivity|].
    cbn [elementVector idToIndex]. split; [reflexivity|apply lookup_empty].
Qed.

(** C5, as the code has it.  On a store that satisfies the invariants:
    - removing a present id makes [HasItem id] false, lowers the number of
      boxes by one, keeps [HasItem] true and the stored box unchanged for
      every other live id, and every query whose capacity is at least the
      number of boxes it matches (and whose buffer has that capacity)
      reports, up to order, what it reported before without [id];
    - adding an absent id (to a store of fewer than [2^31] boxes) and
      removing it again gives the original number of boxes, and
      [HasItem id] is false. *)
Theorem RemoveItem_frame (s : SpatialPartitioner) (id : Z) :
  store_inv s -> typed s ->
  (is_Some (idToIndex s !! id) ->
   exists s',
     RemoveItem id s = Some (tt, s') /\
     HasItem id s' = Some (false, s') /\
     S (length (elementVector s')) = length (elementVector s) /\
     (forall j, j <> id -> is_Some (idToIndex s !! j) ->
        HasItem j s' = Some (true, s') /\ bounds_of s' j = bounds_of s j) /\
     (forall q c e returnArray N,
        Z.of_nat (length (matching (predicate_of q) c e s)) <= N ->
        N <= Z.of_nat (length returnArray) ->
        exists r r',
          run_query q c e returnArray N s = Some (r, s) /\
          run_query q c e returnArray N s' = Some (r', s') /\
          reported r' ≡ₚ filter (fun j => j <> id) (reported r)))
  /\
  (forall c e,
     idToIndex s !! id = None ->
     Z.of_nat (length (elementVector s)) < 2 ^ 31 ->
     exists s1 s2,
       AddItem id c e s = Some (tt, s1) /\
       RemoveItem id s1 = Some (tt, s2) /\
       HasItem id s2 = Some (false, s2) /\
       length (elementVector s2) = length (elementVector s)).
Proof.
  intros Hinv Hty. split.
  - intros Hpres.
    destruct (RemoveItem_effect s id Hinv Hty Hpres)
      as (s' & a & Hrun & Hid & Hperm & Hgone & Hothers & _ & _).
    exists s'. split; [exact Hrun|]. split; [|split; [|split]].
    + unfold HasItem, map.found. rewrite Hgone.
      rewrite bool_decide_eq_false_2 by (intros [? ?]; discriminate). reflexivity.
    + rewrite Hperm. reflexivity.
    + intros j Hne Hj. destruct (Hothers j Hne) as [Hb Hs]. split; [|exact Hb].
      unfold HasItem, map.found.
      rewrite bool_decide_eq_true_2 by (apply Hs, Hj). reflexivity.
    + intros q c e buf N HM HN. rewrite run_query_eq.
      destruct (matching_ids_removed (predicate_of q) c e s s' a Hinv Hperm)
        as [Hids Hle].
      rewrite Hid in Hids.
      rewrite (query_all _ c e buf N s) by assumption.
      rewrite (query_all _ c e buf N s') by lia.
      eexists _, _. split; [reflexivity|]. split; [reflexivity|].
      rewrite !reported_query_all. exact Hids.
  - intros c e Hfresh Hlen.
    destruct (AddItem_RemoveItem s id c e Hlen) as (s1 & s2 & H1 & H2 & Hv & Hm).
    exists s1, s2. split; [exact H1|]. split; [exact H2|]. split.
    + unfold HasItem, map.found. rewrite Hm.
      rewrite bool_decide_eq_false_2 by (intros [? ?]; discriminate). reflexivity.
    + rewrite Hv. reflexivity.
Qed.

Lemma store123_reached :
  reaches_representable SpatialPartitioner_ctor
    [CallAdd 1 origin half; CallAdd 2 origin half; CallAdd 3 origin half] store123.
Proof.
  eapply rr_cons with (s' := store1);
    [split; [unfold is_int32; lia|reflexivity]|split; reflexivity|reflexivity|].
  eapply rr_cons with (s' := exec (AddItem 2 origin half) store1);
    [split; [unfold is_int32; lia|reflexivity]|split; reflexivity|reflexivity|].
  eapply rr_cons with (s' := store123);
    [split; [unfold is_int32; lia|reflexivity]|split; reflexivity|reflexivity|].
  apply rr_nil.
Defined.

Lemma store123_invariants : store_inv store123 /\ typed store123 /\ constructed store123.
Proof.
  apply (invariants_of_representable_calls _ _ _ store123_reached).
  split; [apply store_inv_empty|]. split; [apply typed_empty|]. apply Forall_nil_2.
Defined.

Lemma RemoveItem_frame_witness :
  store_inv store123 /\ typed store123 /\ is_Some (idToIndex store123 !! 1) /\
  exists s',
    RemoveItem 1 store123 = Some (tt, s') /\
    HasItem 1 s' = Some (false, s') /\
    S (length (elementVector s')) = length (elementVector store123) /\
    (HasItem 2 s' = Some (true, s') /\ bounds_of s' 2 = bounds_of store123 2) /\
    exists r r',
      IntersectedBy origin half [0; 0; 0] 3 store123 = Some (r, store123) /\
      IntersectedBy origin half [0; 0; 0] 3 s' = Some (r', s') /\
      reported r' ≡ₚ filter (fun j => j <> 1) (reported r).
Proof.
  destruct store123_invariants as (Hinv & Hty & _).
  split; [exact Hinv|]. split; [exact Hty|].
  assert (Hpres : is_Some (idToIndex store123 !! 1)) by (eexists; reflexivity).
  split; [exact Hpres|].
  destruct (RemoveItem_frame store123 1 Hinv Hty) as [Hrm _].
  destruct (Hrm Hpres) as (s' & Hrun & Hhas & Hlen & Hothers & Hq).
  exists s'. split; [exact Hrun|]. split; [exact Hhas|]. split; [exact Hlen|].
  split.
  - apply Hothers; [discriminate|eexists; reflexivity].
  - apply (Hq Intersected origin half [0; 0; 0] 3); [vm_compute; discriminate|cbn; lia].
Defined.

(** C5 as stated fails for a query whose capacity cuts the output short.
    Three copies of one box are stored under the ids 1, 2, 3; a query with
    that box and capacity 1 reports the first slot.  Before [RemoveItem(1)]
    that is the id 1, so nothing is reported for the surviving ids; after
    it the last box has moved into the first slot and the query reports 3. *)
Lemma RemoveItem_changes_truncated_query :
  store_inv store123 /\ is_Some (idToIndex store123 !! 1) /\
  exists s' r r',
    RemoveItem 1 store123 = Some (tt, s') /\
    IntersectedBy origin half [0] 1 store123 = Some (r, store123) /\
    IntersectedBy origin half [0] 1 s' = Some (r', s') /\
    reported r = [1] /\ reported r' = [3] /\
    ~ (reported r' ≡ₚ filter (fun j => j <> 1) (reported r)).
Proof.
  split; [apply store123_invariants|]. split; [eexists; reflexivity|].
  exists (exec (RemoveItem 1) store123), (1, [1]), (1, [3]).
  split; [reflexivity|]. split; [reflexivity|].
  split; [reflexivity|]. split; [reflexivity|]. split; [reflexivity|].
  intros H. apply Permutation_length in H. discriminate H.
Qed.

(** ** The two branches of [RemoveItem] *)

(** C7, as the code has it: on a store of exactly one box, removing the id
    of that box through the swap-with-last branch gives the state the clear
    branch gives, the empty store. *)
Theorem RemoveItem_swap_on_single (s : SpatialPartitioner) (id : Z) :
  store_inv s -> typed s ->
  length (elementVector s) = 1%nat ->
  is_Some (idToIndex s !! id) ->
  RemoveItem_swap id s = RemoveItem id s /\
  RemoveItem id s = Some (tt, SpatialPartitioner_ctor).
Proof.
  intros Hinv Hty Hlen [i Hi].
  pose proof (proj1 (inv_dense _ Hinv) _ _ Hi) as Hr. rewrite Hlen in Hr.
  assert (i = 0) as -> by lia.
  destruct s as [v m]. cbn [elementVector idToIndex] in *.
  destruct v as [|a [|b v]]; try discriminate Hlen.
  assert (Hempty : delete id m = ∅)
    by (apply (store_inv_singleton a m id Hinv); rewrite Hi; eauto).
  assert (Hclear : RemoveItem id {| elementVector := [a]; idToIndex := m |}
                   = Some (tt, SpatialPartitioner_ctor)) by reflexivity.
  split; [|exact Hclear]. rewrite Hclear.
  unfold RemoveItem_swap, mbind, M_bind, map.subscript, vec.size.
  cbn [elementVector idToIndex]. rewrite Hi. cbn [elementVector idToIndex length].
  change (size_t_cast 0 =? size_t_cast (Z.of_nat 1 - 1)) with true. cbn iota.
  unfold map.erase, vec.pop_back. cbn [elementVector idToIndex removelast].
  rewrite Hempty. reflexivity.
Qed.

Lemma RemoveItem_swap_on_single_witness :
  store_inv store1 /\ typed store1 /\
  length (elementVector store1) = 1%nat /\
  is_Some (idToIndex store1 !! 1) /\
  RemoveItem_swap 1 store1 = RemoveItem 1 store1 /\
  RemoveItem 1 store1 = Some (tt, SpatialPartitioner_ctor).
Proof.
  assert (Hreach : reaches_representable SpatialPartitioner_ctor
                     [CallAdd 1 origin half] store1).
  { eapply rr_cons with (s' := store1);
      [split; [unfold is_int32; lia|reflexivity]|split; reflexivity|reflexivity|].
    apply rr_nil. }
  destruct (invariants_of_representable_calls _ _ _ Hreach) as (Hinv & Hty & _).
  { split; [apply store_inv_empty|]. split; [apply typed_empty|]. apply Forall_nil_2. }
  split; [exact Hinv|]. split; [exact Hty|]. split; [reflexivity|].
  split; [eexists; reflexivity|].
  apply (RemoveItem_swap_on_single store1 1 Hinv Hty); [reflexivity|eexists; reflexivity].
Defined.

(** C7 as stated fails in both ways the guard [size() > 1] leaves open.
    On the empty store the swap branch reads [elementVector[size() - 1]],
    outside the vector, where the clear branch returns the empty store.  On
    the one-box store of scenario A and the absent id 9 the swap branch
    drops the box of id 1 and keeps its map entry, where the clear branch
    empties the map too. *)
Lemma RemoveItem_swap_differs_from_clear :
  RemoveItem 5 SpatialPartitioner_ctor = Some (tt, SpatialPartitioner_ctor) /\
  RemoveItem_swap 5 SpatialPartitioner_ctor = None /\
  RemoveItem 9 store1 = Some (tt, SpatialPartitioner_ctor) /\
  RemoveItem_swap 9 store1
  = Some (tt, {| elementVector := []; idToIndex := {[1 := 0]} |}) /\
  RemoveItem_swap 9 store1 <> RemoveItem 9 store1.
Proof.
  split; [reflexivity|]. split; [reflexivity|]. split; [reflexivity|].
  split; [reflexivity|]. intros H. discriminate H.
Qed.

(** C10: [RemoveItem] on the empty store returns, and the store is the
    empty store again. *)
Theorem RemoveItem_on_empty (id : Z) :
  RemoveItem id SpatialPartitioner_ctor = Some (tt, SpatialPartitioner_ctor).
Proof. reflexivity. Qed.

(** ** The invariants and the id lane *)

(** C4 at [AddItem(INT_MIN, ...)] on the empty store, a permitted call: the
    map sends [INT_MIN] to slot 0, whose packed id reads 0, and 0 is not a
    key; invariants (a) and (b) fail. *)
Theorem invariant_broken_by_INT_MIN :
  reaches SpatialPartitioner_ctor [CallAdd INT_MIN origin half] store_min /\
  idToIndex store_min !! INT_MIN = Some 0 /\
  IdFromAABB <$> elementVector store_min !! 0%nat = Some 0 /\
  idToIndex store_min !! 0 = None /\
  ~ store_inv store_min.
Proof.
  split.
  { eapply reaches_cons with (s' := store_min);
      [split; [unfold is_int32, INT_MIN; lia|reflexivity]|reflexivity|apply reaches_nil]. }
  split; [reflexivity|]. split; [reflexivity|]. split; [reflexivity|].
  intros Hinv.
  destruct (inv_key_slot _ Hinv INT_MIN 0 eq_refl) as (a & _ & Ha & E).
  injection Ha as <-. discriminate E.
Qed.

(** ** [AddItem] of a present id *)

Lemma filter_eq_NoDup (id : Z) (l : list Z) :
  NoDup l -> id ∈ l -> filter (fun j => j = id) l = [id].
Proof.
  induction 1 as [|k l Hk Hnd IH]; intros Hin; [inversion Hin|].
  destruct (decide (k = id)) as [->|Hne].
  - rewrite filter_cons_True by reflexivity. f_equal.
    clear IH Hin Hnd. induction l as [|k l IH]; [reflexivity|].
    apply not_elem_of_cons in Hk as [Hne Hk].
    rewrite filter_cons_False by congruence. apply IH, Hk.
  - rewrite filter_cons_False by exact Hne. apply IH.
    apply elem_of_cons in Hin as [E|Hin]; [congruence|exact Hin].
Qed.

(** C8, as the code has it.  The store satisfies the invariants, its boxes
    came out of the constructor and there are fewer than [2^31] of them;
    [old] is the box stored for [id].  [AddItem id] appends a box, the map
    sends [id] to the new last slot, [old] stays in its slot, both boxes
    carry the packed id [id], and a query box that intersects both, with a
    capacity that is at least the number of boxes it intersects, reports
    [id] exactly twice. *)
Theorem AddItem_duplicate (s : SpatialPartitioner) (id i : Z) (old : AABB)
    (center extents : Vector3) :
  store_inv s -> typed s -> constructed s ->
  Z.of_nat (length (elementVector s)) < 2 ^ 31 ->
  idToIndex s !! id = Some i ->
  elementVector s !! Z.to_nat i = Some old ->
  exists s',
    AddItem id center extents s = Some (tt, s') /\
    length (elementVector s') = S (length (elementVector s)) /\
    idToIndex s' !! id = Some (Z.of_nat (length (elementVector s))) /\
    elementVector s' !! length (elementVector s) = Some (AABB_ctor id center extents) /\
    elementVector s' !! Z.to_nat i = Some old /\
    IdFromAABB old = id /\
    IdFromAABB (AABB_ctor id center extents) = id /\
    forall testCenter testExtents returnArray N,
      intersects (AABB_ctor (-1) testCenter testExtents) old = true ->
      intersects (AABB_ctor (-1) testCenter testExtents)
                 (AABB_ctor id center extents) = true ->
      Z.of_nat (length (matching intersects testCenter testExtents s')) <= N ->
      N <= Z.of_nat (length returnArray) ->
      exists r,
        IntersectedBy testCenter testExtents returnArray N s' = Some (r, s') /\
        filter (fun j => j = id) (reported r) = [id; id].
Proof.
  intros Hinv Hty Hcons Hlen Hi Hold.
  assert (Hidold : IdFromAABB old = id).
  { destruct (inv_key_slot _ Hinv _ _ Hi) as (a & _ & Ha & E). congruence. }
  assert (Hidnew : IdFromAABB (AABB_ctor id center extents) = id).
  { rewrite <- Hidold. apply constructed_id_stable.
    eapply (proj1 (Forall_lookup _ _) Hcons), Hold. }
  eexists. split; [apply AddItem_run|]. cbn [elementVector idToIndex].
  rewrite int_cast_id
    by (unfold is_int32; change (2 ^ 31) with 2147483648 in *; lia).
  split; [rewrite length_app; cbn; lia|].
  split; [apply lookup_insert_eq|].
  split; [rewrite lookup_app_r, Nat.sub_diag by lia; reflexivity|].
  split; [rewrite lookup_app_l by (eapply lookup_lt_Some, Hold); exact Hold|].
  split; [exact Hidold|]. split; [exact Hidnew|].
  intros tc te buf N Hqold Hqnew HM HN.
  unfold IntersectedBy. rewrite query_all by assumption.
  eexists. split; [reflexivity|]. rewrite reported_query_all.
  unfold matching_ids, matching. cbn [elementVector].
  rewrite filter_app, fmap_app, filter_app.
  rewrite filter_cons_True, filter_nil by exact Hqnew. cbn [fmap list_fmap].
  rewrite Hidnew. rewrite filter_cons_True, filter_nil by reflexivity.
  rewrite filter_eq_NoDup; [reflexivity| |].
  - apply (sublist_NoDup _ (IdFromAABB <$> elementVector s)).
    + apply (inv_ids_NoDup s Hinv).
    + apply fmap_sublist, sublist_filter.
  - rewrite <- Hidold. apply list_elem_of_fmap. exists old. split; [reflexivity|].
    apply list_elem_of_filter. split; [exact Hqold|].
    eapply list_elem_of_lookup_2, Hold.
Qed.

Lemma AddItem_duplicate_witness :
  store_inv store123 /\ typed store123 /\ constructed store123 /\
  idToIndex store123 !! 2 = Some 1 /\
  exists s' r,
    AddItem 2 origin half store123 = Some (tt, s') /\
    length (elementVector s') = 4%nat /\
    idToIndex s' !! 2 = Some 3 /\
    IntersectedBy origin half [0; 0; 0; 0] 4 s' = Some (r, s') /\
    filter (fun j => j = 2) (reported r) = [2; 2].
Proof.
  destruct store123_invariants as (Hinv & Hty & Hcons).
  split; [exact Hinv|]. split; [exact Hty|]. split; [exact Hcons|].
  split; [reflexivity|].
  destruct (AddItem_duplicate store123 2 1 (AABB_ctor 2 origin half) origin half
              Hinv Hty Hcons) as (s' & Hrun & Hlen & Hmap & _ & _ & _ & _ & Hq);
    [reflexivity|reflexivity|reflexivity|].
  destruct (Hq origin half [0; 0; 0; 0] 4) as (r & Hr & Hcount);
    [reflexivity|reflexivity| |reflexivity|].
  - rewrite AddItem_run in Hrun. injection Hrun as <-. vm_compute. discriminate.
  - exists s', r. split; [exact Hrun|]. split; [exact Hlen|]. split; [exact Hmap|].
    split; [exact Hr|exact Hcount].
Defined.

(** C8 as stated fails for a query of capacity 1: after a second
    [AddItem(1, ...)] the store of scenario A holds two boxes with the
    packed id 1, the query box intersects both, and the query stops after
    the first, so that the id 1 is reported once. *)
Lemma AddItem_duplicate_reported_once :
  is_Some (idToIndex store1 !! 1) /\
  AddItem 1 origin half store1 = Some (tt, store11) /\
  matching_ids intersects origin half store11 = [1; 1] /\
  IntersectedBy origin half [0] 1 store11 = Some ((1, [1]), store11) /\
  filter (fun j => j = 1) (reported (1, [1])) <> [1; 1].
Proof.
  split; [eexists; reflexivity|]. split; [reflexivity|]. split; [reflexivity|].
  split; [reflexivity|]. intros H. discriminate H.
Qed.

(** ** Queries leave the store alone *)

Lemma scan_no_capacity (pred : AABB -> AABB -> bool) (testAABB : AABB)
    (it : list AABB) (returnArray : list Z) (N : Z) :
  N <= 1 -> (0 < length returnArray)%nat ->
  exists r, scan pred testAABB it returnArray 0 N = Some r.
Proof.
  intros HN Hbuf. induction it as [|elem rest IH]; [cbn; eauto|].
  cbn [scan]. destruct (pred testAABB elem); [|exact IH].
  unfold store_int. rewrite in_range_true by lia.
  rewrite (proj2 (Z.leb_le _ _)) by lia. eauto.
Qed.

(** C9: a query that returns leaves the partitioner as it found it; each of
    the three bounded queries returns when the buffer holds [max N 1] cells
    (the loop writes one id before it looks at the capacity), and [HasItem]
    always returns. *)
Theorem queries_leave_store (s : SpatialPartitioner) :
  (forall q c e returnArray N r s',
     run_query q c e returnArray N s = Some (r, s') -> s' = s) /\
  (forall q c e returnArray N,
     Z.max N 1 <= Z.of_nat (length returnArray) ->
     exists r, run_query q c e returnArray N s = Some (r, s)) /\
  (forall itemHandle,
     HasItem itemHandle s
     = Some (bool_decide (is_Some (idToIndex s !! itemHandle)), s)).
Proof.
  split; [|split].
  - intros q c e buf N r s'. rewrite run_query_eq. unfold query.
    destruct (scan _ _ _ _ _ _); [|discriminate]. congruence.
  - intros q c e buf N Hbuf. rewrite run_query_eq. unfold query.
    destruct (Z.le_gt_cases N 1) as [Hsmall|Hbig].
    + destruct (scan_no_capacity (predicate_of q) (AABB_ctor (-1) c e)
                  (elementVector s) buf N Hsmall) as [r ->]; [lia|]. eauto.
    + rewrite (scan_spec _ _ (elementVector s) buf 0 N) by lia. eauto.
  - reflexivity.
Qed.

Lemma queries_leave_store_witness :
  IntersectedBy origin half [0; 0] 2 store123 = Some ((2, [1; 2]), store123) /\
  ContainedBy origin half [0] 0 store123 = Some ((1, [1]), store123) /\
  IntersectedByOrig far half [0] 1 store123 = Some ((0, [0]), store123) /\
  HasItem 2 store123 = Some (true, store123).
Proof.
  destruct (queries_leave_store store123) as (Hframe & Htotal & Hhas).
  split; [|split; [|split]].
  - destruct (Htotal Intersected origin half [0; 0] 2) as [r Hr]; [cbn; lia|].
    cbn [run_query] in Hr. rewrite Hr. f_equal. f_equal.
    assert (E : IntersectedBy origin half [0; 0] 2 store123
                = Some ((2, [1; 2]), store123)) by reflexivity.
    rewrite E in Hr. congruence.
  - assert (E : run_query Contained origin half [0] 0 store123
                = Some ((1, [1]), exec (ContainedBy origin half [0] 0) store123))
      by reflexivity.
    rewrite (Hframe _ _ _ _ _ _ _ E) in E. exact E.
  - assert (E : run_query IntersectedOrig far half [0] 1 store123
                = Some ((0, [0]), exec (IntersectedByOrig far half [0] 1) store123))
      by reflexivity.
    rewrite (Hframe _ _ _ _ _ _ _ E) in E. exact E.
  - rewrite Hhas. reflexivity.
Defined.

(** * Further properties of the code *)

(** ** The predicates, lane by lane *)

Lemma same_bounds_ctor (id id' : Z) (c e : Vector3) :
  same_bounds (AABB_ctor id c e) (AABB_ctor id' c e).
Proof.
  intros i Hi. destruct i as [|[|[|i]]]; try lia; split; reflexivity.
Qed.

Lemma predicates_same_bounds (a a' b b' : AABB) :
  same_bounds a a' -> same_bounds b b' ->
  intersects a b = intersects a' b' /\
  intersectsOrig a b = intersectsOrig a' b' /\
  contains a b = contains a' b'.
Proof.
  intros Ha Hb.
  destruct (Ha 0%nat) as [Ha0 Ha0']; [lia|].
  destruct (Ha 1%nat) as [Ha1 Ha1']; [lia|].
  destruct (Ha 2%nat) as [Ha2 Ha2']; [lia|].
  destruct (Hb 0%nat) as [Hb0 Hb0']; [lia|].
  destruct (Hb 1%nat) as [Hb1 Hb1']; [lia|].
  destruct (Hb 2%nat) as [Hb2 Hb2']; [lia|].
  unfold intersectsOrig.
  rewrite !intersects_lanes, !intersectsOrig_loop_forallb, !contains_lanes.
  cbn [forallb].
  rewrite Ha0, Ha0', Ha1, Ha1', Ha2, Ha2', Hb0, Hb0', Hb1, Hb1', Hb2, Hb2'.
  repeat split.
Qed.

(** X1: the id packed in the fourth lane never takes part in a spatial
    test: the three predicates give the same answer whatever ids the two
    boxes were built with. *)
Theorem predicates_ignore_id (id0 id0' id1 id1' : Z) (c0 e0 c1 e1 : Vector3) :
  intersects (AABB_ctor id0 c0 e0) (AABB_ctor id1 c1 e1)
  = intersects (AABB_ctor id0' c0 e0) (AABB_ctor id1' c1 e1) /\
  intersectsOrig (AABB_ctor id0 c0 e0) (AABB_ctor id1 c1 e1)
  = intersectsOrig (AABB_ctor id0' c0 e0) (AABB_ctor id1' c1 e1) /\
  contains (AABB_ctor id0 c0 e0) (AABB_ctor id1 c1 e1)
  = contains (AABB_ctor id0' c0 e0) (AABB_ctor id1' c1 e1).
Proof. apply predicates_same_bounds; apply same_bounds_ctor. Qed.

(** X2: [intersects] is symmetric, on all boxes. *)
Theorem intersects_sym (a b : AABB) : intersects a b = intersects b a.
Proof.
  rewrite !intersects_lanes. cbn [forallb]. unfold Binary32.gt, Binary32.lt.
  rewrite (orb_comm (SFltb (Binary32.decode (m128_f32 (vecmax a) 0)) _)).
  rewrite (orb_comm (SFltb (Binary32.decode (m128_f32 (vecmax a) 1)) _)).
  rewrite (orb_comm (SFltb (Binary32.decode (m128_f32 (vecmax a) 2)) _)).
  reflexivity.
Qed.

Lemma SFltb_irrefl (f : spec_float) : SFltb f f = false.
Proof.
  unfold SFltb, SFcompare. destruct f as [[]|[]| |[] m e]; try reflexivity;
    rewrite Z.compare_refl; change (Pos.compare_cont Eq m m) with (Pos.compare m m);
    rewrite Pos.compare_refl; reflexivity.
Qed.

(** X3: every box contains itself, NaN lanes or not; a box intersects
    itself exactly when no axis has its max corner below its min corner. *)
Theorem predicates_on_self (a : AABB) :
  contains a a = 1 /\ intersects a a = negb (inverted_axis a).
Proof.
  rewrite contains_lanes, intersects_lanes. unfold inverted_axis.
  cbn [forallb existsb]. unfold Binary32.gt, Binary32.lt.
  rewrite !SFltb_irrefl, !orb_diag. split; [reflexivity|].
  rewrite !andb_true_r, !orb_false_r, !negb_orb. reflexivity.
Qed.

(** The order of [SpecFloat] is total on the values that are not NaN. *)
Lemma SFltb_false_leb (f g : spec_float) :
  SFleb f f = true -> SFleb g g = true -> SFltb f g = false -> SFleb g f = true.
Proof.
  unfold SFltb, SFleb, SFcompare.
  destruct f as [[]|[]| |[] mf ef], g as [[]|[]| |[] mg eg];
    try discriminate; try reflexivity; intros _ _ H; sf_order.
Qed.

Lemma SFltb_not_nan (f g : spec_float) :
  SFltb f g = true -> SFleb f f = true /\ SFleb g g = true.
Proof.
  unfold SFltb, SFleb, SFcompare.
  destruct f as [[]|[]| |[] mf ef], g as [[]|[]| |[] mg eg];
    try discriminate; intros _; split; try reflexivity;
    rewrite Z.compare_refl;
    match goal with |- context [Pos.compare_cont Eq ?m ?m] =>
      change (Pos.compare_cont Eq m m) with (Pos.compare m m);
      rewrite Pos.compare_refl end; reflexivity.
Qed.

Lemma SFleb_not_nan (f g : spec_float) :
  SFleb f g = true -> SFleb f f = true /\ SFleb g g = true.
Proof.
  unfold SFleb, SFcompare.
  destruct f as [[]|[]| |[] mf ef], g as [[]|[]| |[] mg eg];
    try discriminate; intros _; split; try reflexivity;
    rewrite Z.compare_refl;
    match goal with |- context [Pos.compare_cont Eq ?m ?m] =>
      change (Pos.compare_cont Eq m m) with (Pos.compare m m);
      rewrite Pos.compare_refl end; reflexivity.
Qed.

(** One axis of the transitivity of [contains]. *)
Lemma axis_contains_trans (minA maxA minB maxB minC maxC : Z) :
  Binary32.le minB maxB = true ->
  Binary32.gt minA minB || Binary32.lt maxA maxB = false ->
  Binary32.gt minB minC || Binary32.lt maxB maxC = false ->
  Binary32.gt minA minC || Binary32.lt maxA maxC = false.
Proof.
  unfold Binary32.le, Binary32.gt, Binary32.lt.
  intros Hb [Hab Hab']%orb_false_elim [Hbc Hbc']%orb_false_elim.
  destruct (SFleb_not_nan _ _ Hb) as [Hnb Hnb'].
  apply orb_false_intro.
  - destruct (SFltb (Binary32.decode minC) (Binary32.decode minA)) eqn:E; [|reflexivity].
    destruct (SFltb_not_nan _ _ E) as [Hnc _].
    pose proof (SFltb_false_leb _ _ Hnc Hnb Hbc) as Hle.
    rewrite (SFleb_ltb_trans _ _ _ Hle E) in Hab. discriminate.
  - destruct (SFltb (Binary32.decode maxA) (Binary32.decode maxC)) eqn:E; [|reflexivity].
    destruct (SFltb_not_nan _ _ E) as [_ Hnc].
    pose proof (SFltb_false_leb _ _ Hnb' Hnc Hbc') as Hle.
    rewrite (SFltb_leb_trans _ _ _ E Hle) in Hab'. discriminate.
Qed.

Lemma contains_axes (a b : AABB) :
  contains a b = 1 <->
  forall i, (i < 3)%nat ->
    Binary32.gt (m128_f32 (vecmin a) i) (m128_f32 (vecmin b) i)
    || Binary32.lt (m128_f32 (vecmax a) i) (m128_f32 (vecmax b) i) = false.
Proof.
  rewrite contains_lanes. cbn [forallb]. rewrite andb_true_r. split.
  - intros H i Hi.
    destruct (negb (_ || _)) eqn:E0 in H; [|discriminate H].
    destruct (negb (_ || _)) eqn:E1 in H; [|discriminate H].
    destruct (negb (_ || _)) eqn:E2 in H; [|discriminate H].
    apply negb_true_iff in E0, E1, E2.
    destruct i as [|[|[|i]]]; try lia; assumption.
  - intros H. rewrite (H 0%nat), (H 1%nat), (H 2%nat) by lia. reflexivity.
Qed.

(** X4: [contains] is transitive through a box whose corners are ordered. *)
Theorem contains_trans (a b c : AABB) :
  ordered_corners b = true ->
  contains a b = 1 -> contains b c = 1 -> contains a c = 1.
Proof.
  unfold ordered_corners. cbn [forallb]. rewrite andb_true_r.
  intros [H0 [H1 H2]%andb_prop]%andb_prop Hab Hbc.
  rewrite contains_axes in Hab, Hbc. apply contains_axes.
  intros i Hi. eapply axis_contains_trans; [|apply Hab, Hi|apply Hbc, Hi].
  destruct i as [|[|[|i]]]; try lia; assumption.
Qed.

Lemma contains_trans_witness :
  ordered_corners (AABB_ctor 2 origin half) = true /\
  contains (AABB_ctor 1 origin wide) (AABB_ctor 2 origin half) = 1 /\
  contains (AABB_ctor 2 origin half) (AABB_ctor 3 origin quarter) = 1 /\
  contains (AABB_ctor 1 origin wide) (AABB_ctor 3 origin quarter) = 1.
Proof.
  split; [reflexivity|]. split; [reflexivity|]. split; [reflexivity|].
  apply (contains_trans _ (AABB_ctor 2 origin half)); reflexivity.
Defined.

(** ** Which ids the lane carries *)

Lemma id_stable_ranges (id : Z) :
  is_int32 id -> (id_stable id = true <-> carried_by_lane id).
Proof.
  unfold is_int32, carried_by_lane, INT_MIN, id_stable, lane_stable.
  unfold Binary32.is_snan, Binary32.is_nan, Binary32.of_int_bits,
    Binary32.biased_exp, Binary32.fraction.
  change (2 ^ 32) with 4294967296. change (2 ^ 31) with 2147483648.
  change (2 ^ 23) with 8388608. change (2 ^ 22) with 4194304.
  change (2 ^ 8) with 256.
  intros Hid.
  set (w := id mod 4294967296).
  assert (Hw : w = id \/ w = id + 4294967296)
    by (subst w; Z.div_mod_to_equations; lia).
  assert (Hw' : 0 <= w < 4294967296) by (subst w; Z.div_mod_to_equations; lia).
  clearbody w.
  pose proof (Z.div_mod w 8388608 ltac:(lia)) as Hq.
  pose proof (Z.mod_pos_bound w 8388608 ltac:(lia)) as Hf.
  set (q := w / 8388608) in *. set (f := w mod 8388608) in *. clearbody q f.
  pose proof (Z.div_mod q 256 ltac:(lia)) as Hs.
  pose proof (Z.mod_pos_bound q 256 ltac:(lia)) as He.
  set (t := q / 256) in *. set (e := q mod 256) in *. clearbody t e.
  destruct (Z.eqb_spec w 2147483648) as [E|E];
  destruct (Z.eqb_spec e 255) as [X|X];
  destruct (Z.eqb_spec f 0) as [F|F];
  destruct (Z.ltb_spec f 4194304) as [Q|Q];
  cbn; (split; [intros H; try discriminate H|intros (H1 & H2 & H3); try reflexivity; exfalso]);
  lia.
Qed.

(** X5: the constructor and [IdFromAABB] give an [int] id back exactly when
    it is not [INT_MIN] and not one of the signalling-NaN patterns
    (0x7F800001..0x7FBFFFFF and -8388607..-4194305).  Every id from 0 to
    2139095040 is carried. *)
Theorem id_roundtrip_iff (id : Z) (center extents : Vector3) :
  is_int32 id ->
  (IdFromAABB (AABB_ctor id center extents) = id <-> carried_by_lane id).
Proof.
  intros Hid. rewrite <- (id_stable_ranges id Hid). split.
  - intros H. rewrite <- H. apply ctor_id_result_stable.
  - intros H. apply ctor_id_stable; assumption.
Qed.

Lemma id_roundtrip_iff_witness :
  is_int32 2139095040 /\ carried_by_lane 2139095040 /\
  IdFromAABB (AABB_ctor 2139095040 origin half) = 2139095040.
Proof.
  assert (H32 : is_int32 2139095040) by (unfold is_int32; lia).
  assert (Hc : carried_by_lane 2139095040)
    by (unfold carried_by_lane, INT_MIN; lia).
  split; [exact H32|]. split; [exact Hc|].
  apply (id_roundtrip_iff 2139095040 origin half H32), Hc.
Defined.

(** ** The bounded queries *)

Lemma scan_ext (pred pred' : AABB -> AABB -> bool) (testAABB : AABB)
    (it : list AABB) (returnArray : list Z) (cur N : Z) :
  (forall a, pred testAABB a = pred' testAABB a) ->
  scan pred testAABB it returnArray cur N = scan pred' testAABB it returnArray cur N.
Proof.
  intros Hext. revert returnArray cur.
  induction it as [|elem rest IH]; intros buf cur; [reflexivity|].
  cbn [scan]. rewrite <- Hext. destruct (pred testAABB elem); [|apply IH].
  destruct (store_int buf cur (IdFromAABB elem)); [|reflexivity].
  destruct (N <=? cur + 1); [reflexivity|apply IH].
Qed.

Lemma intersects_lanes_orig (a b : AABB) : intersects a b = intersectsOrig a b.
Proof.
  unfold intersectsOrig. rewrite intersects_lanes, intersectsOrig_loop_forallb.
  reflexivity.
Qed.

(** X6: the vectorized and the scalar query are the same function: same
    count, same buffer, same undefined cases, on every store. *)
Theorem IntersectedBy_eq_IntersectedByOrig (testCenter testExtents : Vector3)
    (returnArray : list Z) (returnArrayMaxSize : Z) (s : SpatialPartitioner) :
  IntersectedBy testCenter testExtents returnArray returnArrayMaxSize s
  = IntersectedByOrig testCenter testExtents returnArray returnArrayMaxSize s.
Proof.
  unfold IntersectedBy, IntersectedByOrig, query.
  rewrite (scan_ext intersects intersectsOrig); [reflexivity|].
  intros a. apply intersects_lanes_orig.
Qed.

(** X7: with a capacity [N >= 1] and a buffer of at least [N] cells, each of
    the three queries returns [min M N], where [M] counts the stored boxes
    its predicate matches; the cells it reports hold the ids of the first
    [min M N] matches in storage order, and the cells from [N] on are
    left as they were. *)
Theorem query_returns_min (q : query_kind) (c e : Vector3) (returnArray : list Z)
    (N : Z) (s : SpatialPartitioner) :
  1 <= N ->
  N <= Z.of_nat (length returnArray) ->
  exists out,
    run_query q c e returnArray N s
    = Some ((Z.min (Z.of_nat (length (matching (predicate_of q) c e s))) N, out), s)
    /\ reported (Z.min (Z.of_nat (length (matching (predicate_of q) c e s))) N, out)
       = take (Z.to_nat N) (matching_ids (predicate_of q) c e s)
    /\ length out = length returnArray
    /\ drop (Z.to_nat N) out = drop (Z.to_nat N) returnArray.
Proof.
  intros H1 HN. rewrite run_query_eq, query_bounded by assumption.
  set (ids := take (Z.to_nat N) (matching_ids (predicate_of q) c e s)).
  assert (Hlen : length ids
    = Z.to_nat (Z.min (Z.of_nat (length (matching (predicate_of q) c e s))) N)).
  { subst ids. unfold matching_ids. rewrite length_take, length_fmap. lia. }
  eexists. split; [reflexivity|]. split; [|split].
  - unfold reported. cbn [fst snd]. rewrite <- Hlen. apply take_app_length.
  - rewrite length_app, length_drop. lia.
  - rewrite drop_app_ge by lia. rewrite drop_drop. f_equal. lia.
Qed.

Lemma query_returns_min_witness :
  exists out,
    run_query Contained origin wide [9; 9; 9] 2 store123 = Some ((2, out), store123)
    /\ reported (2, out) = [1; 2]
    /\ drop 2 out = [9].
Proof.
  destruct (query_returns_min Contained origin wide [9; 9; 9] 2 store123)
    as (out & Hrun & Hrep & _ & Hrest); [lia|cbn; lia|].
  exists out. split; [exact Hrun|]. split; [exact Hrep|exact Hrest].
Defined.

Lemma scan_capacity_le_1 (pred : AABB -> AABB -> bool) (testAABB : AABB)
    (it : list AABB) (returnArray : list Z) (N : Z) :
  N <= 1 ->
  scan pred testAABB it returnArray 0 N = scan pred testAABB it returnArray 0 1.
Proof.
  intros HN. induction it as [|elem rest IH]; [reflexivity|].
  cbn [scan]. destruct (pred testAABB elem); [|exact IH].
  destruct (store_int returnArray 0 (IdFromAABB elem)); [|reflexivity].
  rewrite (proj2 (Z.leb_le N (0 + 1))) by lia. reflexivity.
Qed.

(** X8: a capacity of zero or less is treated as a capacity of one: the
    loop tests the capacity only after it has stored a match. *)
Theorem capacity_below_one (q : query_kind) (c e : Vector3) (returnArray : list Z)
    (N : Z) (s : SpatialPartitioner) :
  N <= 1 ->
  run_query q c e returnArray N s = run_query q c e returnArray 1 s.
Proof.
  intros HN. rewrite run_query_eq. unfold query.
  rewrite (scan_capacity_le_1 _ _ _ _ N HN). reflexivity.
Qed.

Lemma capacity_below_one_witness :
  run_query Intersected origin half [9; 9] (-5) store123 = Some ((1, [1; 9]), store123).
Proof.
  rewrite (capacity_below_one Intersected origin half [9; 9] (-5) store123) by lia.
  reflexivity.
Defined.

(** X9: a query whose predicate matches no stored box returns 0 and leaves
    the buffer alone, for every capacity and every buffer, the empty one
    included; so does every query on the empty store. *)
Theorem query_without_match (q : query_kind) (c e : Vector3) (returnArray : list Z)
    (N : Z) (s : SpatialPartitioner) :
  matching (predicate_of q) c e s = [] ->
  run_query q c e returnArray N s = Some ((0, returnArray), s).
Proof.
  intros Hm. rewrite run_query_eq. unfold query.
  rewrite (scan_no_match _ _ _ _ _ _ Hm). reflexivity.
Qed.

Lemma query_without_match_witness :
  run_query Contained far half [] 0 store123 = Some ((0, []), store123) /\
  run_query Intersected origin half [] (-1) SpatialPartitioner_ctor
  = Some ((0, []), SpatialPartitioner_ctor).
Proof.
  split.
  - apply (query_without_match Contained far half [] 0 store123). reflexivity.
  - apply (query_without_match Intersected origin half [] (-1) SpatialPartitioner_ctor).
    reflexivity.
Defined.

Lemma filter_sublist_impl {A : Type} (P Q : A -> Prop)
    `{!forall x, Decision (P x)} `{!forall x, Decision (Q x)} (l : list A) :
  (forall x, x ∈ l -> P x -> Q x) -> filter P l `sublist_of` filter Q l.
Proof.
  induction l as [|x l IH]; intros Himp; [constructor|].
  assert (IH' : filter P l `sublist_of` filter Q l)
    by (apply IH; intros y Hy; apply Himp; right; exact Hy).
  rewrite !filter_cons.
  destruct (decide (P x)) as [Hp|Hp].
  - rewrite decide_True by (apply Himp; [left|exact Hp]). apply sublist_skip, IH'.
  - destruct (decide (Q x)); [apply sublist_cons, IH'|exact IH'].
Qed.

Lemma contained_box_intersects (a b : AABB) :
  ordered_corners b = true ->
  predicate_of Contained a b = true -> intersects a b = true.
Proof.
  unfold ordered_corners. cbn [forallb predicate_of]. rewrite andb_true_r.
  intros [H0 [H1 H2]%andb_prop]%andb_prop Hc.
  assert (Hc1 : contains a b = 1).
  { rewrite contains_lanes in *. destruct (forallb _ _); [reflexivity|discriminate Hc]. }
  rewrite contains_axes in Hc1. rewrite intersects_lanes. cbn [forallb].
  rewrite (axis_inside_not_separated _ _ _ _ H0 (Hc1 0%nat ltac:(lia))).
  rewrite (axis_inside_not_separated _ _ _ _ H1 (Hc1 1%nat ltac:(lia))).
  rewrite (axis_inside_not_separated _ _ _ _ H2 (Hc1 2%nat ltac:(lia))).
  reflexivity.
Qed.

(** X10: on a store whose boxes have ordered corners, what [ContainedBy]
    reports is part of what [IntersectedBy] reports for the same query box,
    in the same order, when the capacity covers the intersecting boxes. *)
Theorem ContainedBy_within_IntersectedBy (c e : Vector3) (returnArray : list Z)
    (N : Z) (s : SpatialPartitioner) :
  Forall (fun a => ordered_corners a = true) (elementVector s) ->
  Z.of_nat (length (matching intersects c e s)) <= N ->
  N <= Z.of_nat (length returnArray) ->
  exists rc ri,
    ContainedBy c e returnArray N s = Some (rc, s) /\
    IntersectedBy c e returnArray N s = Some (ri, s) /\
    reported rc `sublist_of` reported ri.
Proof.
  intros Hord HM HN.
  assert (Hsub : matching (predicate_of Contained) c e s
                 `sublist_of` matching intersects c e s).
  { unfold matching. apply filter_sublist_impl. intros a Ha Hc.
    apply contained_box_intersects; [|exact Hc].
    eapply (proj1 (Forall_forall _ _) Hord), Ha. }
  unfold ContainedBy, IntersectedBy.
  change (fun a b => negb (contains a b =? 0)) with (predicate_of Contained).
  rewrite (query_all (predicate_of Contained))
    by (try apply sublist_length in Hsub; lia).
  rewrite (query_all intersects) by assumption.
  eexists _, _. split; [reflexivity|]. split; [reflexivity|].
  rewrite !reported_query_all. unfold matching_ids. apply fmap_sublist, Hsub.
Qed.

Lemma ContainedBy_within_IntersectedBy_witness :
  exists rc ri,
    ContainedBy origin half [0; 0; 0] 3 store123 = Some (rc, store123) /\
    IntersectedBy origin half [0; 0; 0] 3 store123 = Some (ri, store123) /\
    reported rc `sublist_of` reported ri.
Proof.
  apply (ContainedBy_within_IntersectedBy origin half [0; 0; 0] 3 store123).
  - repeat constructor.
  - vm_compute. discriminate.
  - cbn. lia.
Defined.

(** ** The mutations, one by one *)

Lemma bounds_of_app (v : list AABB) (m : gmap Z Z) (a : AABB) (j : Z) :
  store_inv {| elementVector := v; idToIndex := m |} ->
  bounds_of {| elementVector := v ++ [a]; idToIndex := m |} j
  = bounds_of {| elementVector := v; idToIndex := m |} j.
Proof.
  intros Hinv. unfold bounds_of. cbn [elementVector idToIndex].
  destruct (m !! j) as [k|] eqn:Hk; [|reflexivity]. cbn.
  destruct (inv_key_slot _ Hinv _ _ Hk) as (b & _ & Hb & _). cbn in Hb.
  rewrite lookup_app_l by (eapply lookup_lt_Some, Hb). reflexivity.
Qed.

(** X11: [AddItem] of an id that is not present, on a store that satisfies
    the invariants and holds fewer than [2^31] boxes: the store grows by
    one box, [HasItem id] becomes true, the box stored for [id] is the one
    the constructor builds, and presence and box of every other id are as
    before. *)
Theorem AddItem_fresh (s : SpatialPartitioner) (id : Z) (center extents : Vector3) :
  store_inv s ->
  idToIndex s !! id = None ->
  Z.of_nat (length (elementVector s)) < 2 ^ 31 ->
  exists s',
    AddItem id center extents s = Some (tt, s') /\
    length (elementVector s') = S (length (elementVector s)) /\
    HasItem id s' = Some (true, s') /\
    bounds_of s' id = Some (AABB_ctor id center extents) /\
    forall j, j <> id ->
      HasItem j s' = Some (bool_decide (is_Some (idToIndex s !! j)), s') /\
      bounds_of s' j = bounds_of s j.
Proof.
  intros Hinv Hfresh Hlen. eexists. split; [apply AddItem_run|].
  destruct s as [v m]. cbn [elementVector idToIndex] in *.
  rewrite int_cast_id
    by (unfold is_int32; change (2 ^ 31) with 2147483648 in *; lia).
  split; [rewrite length_app; cbn; lia|]. split; [|split].
  - unfold HasItem, map.found. cbn [idToIndex]. rewrite lookup_insert_eq.
    rewrite bool_decide_eq_true_2 by eauto. reflexivity.
  - unfold bounds_of. cbn [elementVector idToIndex]. rewrite lookup_insert_eq. cbn.
    rewrite Nat2Z.id, lookup_app_r, Nat.sub_diag by lia. reflexivity.
  - intros j Hne. split.
    + unfold HasItem, map.found. cbn [idToIndex].
      rewrite lookup_insert_ne by congruence. reflexivity.
    + rewrite <- (bounds_of_app v m (AABB_ctor id center extents) j Hinv).
      unfold bounds_of. cbn [elementVector idToIndex].
      rewrite lookup_insert_ne by congruence. reflexivity.
Qed.

Lemma AddItem_fresh_witness :
  store_inv store123 /\ idToIndex store123 !! 7 = None /\
  exists s',
    AddItem 7 far half store123 = Some (tt, s') /\
    length (elementVector s') = 4%nat /\
    HasItem 7 s' = Some (true, s') /\
    bounds_of s' 7 = Some (AABB_ctor 7 far half) /\
    bounds_of s' 2 = bounds_of store123 2.
Proof.
  destruct store123_invariants as (Hinv & _ & _).
  split; [exact Hinv|]. split; [reflexivity|].
  destruct (AddItem_fresh store123 7 far half Hinv)
    as (s' & Hrun & Hlen & Hhas & Hb & Hothers); [reflexivity|reflexivity|].
  exists s'. split; [exact Hrun|]. split; [exact Hlen|]. split; [exact Hhas|].
  split; [exact Hb|]. apply Hothers. discriminate.
Defined.

(** X12: [UpdateItem] of a present id, on a store that satisfies the
    invariants: the number of boxes and the map stay as they are, the box
    stored for [id] becomes the one the constructor builds, and the box of
    every other id is as before. *)
Theorem UpdateItem_replaces (s : SpatialPartitioner) (id : Z) (center extents : Vector3) :
  store_inv s -> typed s ->
  is_Some (idToIndex s !! id) ->
  exists s',
    UpdateItem id center extents s = Some (tt, s') /\
    length (elementVector s') = length (elementVector s) /\
    idToIndex s' = idToIndex s /\
    bounds_of s' id = Some (AABB_ctor id center extents) /\
    forall j, j <> id -> bounds_of s' j = bounds_of s j.
Proof.
  intros Hinv Hty [i Hi].
  rewrite (UpdateItem_present id i center extents s Hinv Hty Hi).
  eexists. split; [reflexivity|]. cbn [elementVector idToIndex].
  destruct (inv_key_slot _ Hinv _ _ Hi) as (old & Hi0 & Hold & _).
  apply lookup_lt_Some in Hold as Hlt.
  split; [apply length_insert|]. split; [reflexivity|]. split.
  - unfold bounds_of. cbn [elementVector idToIndex]. rewrite Hi. cbn.
    apply list_lookup_insert_eq, Hlt.
  - intros j Hne. unfold bounds_of. cbn [elementVector idToIndex].
    destruct (idToIndex s !! j) as [k|] eqn:Hk; [|reflexivity]. cbn.
    destruct (inv_key_slot _ Hinv _ _ Hk) as (b & Hk0 & _ & _).
    apply list_lookup_insert_ne. intros E. apply Hne.
    apply (inv_key_inj s j id k Hinv Hk). rewrite Hi. f_equal. lia.
Qed.

Lemma UpdateItem_replaces_witness :
  store_inv store123 /\ typed store123 /\ is_Some (idToIndex store123 !! 2) /\
  exists s',
    UpdateItem 2 far half store123 = Some (tt, s') /\
    length (elementVector s') = 3%nat /\
    bounds_of s' 2 = Some (AABB_ctor 2 far half) /\
    bounds_of s' 3 = bounds_of store123 3.
Proof.
  destruct store123_invariants as (Hinv & Hty & _).
  split; [exact Hinv|]. split; [exact Hty|].
  assert (Hp : is_Some (idToIndex store123 !! 2)) by (eexists; reflexivity).
  split; [exact Hp|].
  destruct (UpdateItem_replaces store123 2 far half Hinv Hty Hp)
    as (s' & Hrun & Hlen & _ & Hb & Hothers).
  exists s'. split; [exact Hrun|]. split; [exact Hlen|]. split; [exact Hb|].
  apply Hothers. discriminate.
Defined.

(** X13: [UpdateItem] with the bounds the box was built from changes
    nothing. *)
Theorem UpdateItem_same_bounds (s : SpatialPartitioner) (id : Z) (center extents : Vector3) :
  store_inv s -> typed s ->
  bounds_of s id = Some (AABB_ctor id center extents) ->
  UpdateItem id center extents s = Some (tt, s).
Proof.
  intros Hinv Hty Hb. unfold bounds_of in Hb.
  destruct (idToIndex s !! id) as [i|] eqn:Hi; [|discriminate Hb]. cbn in Hb.
  rewrite (UpdateItem_present id i center extents s Hinv Hty Hi).
  rewrite list_insert_id by exact Hb. destruct s; reflexivity.
Qed.

Lemma UpdateItem_same_bounds_witness :
  bounds_of store123 2 = Some (AABB_ctor 2 origin half) /\
  UpdateItem 2 origin half store123 = Some (tt, store123).
Proof.
  destruct store123_invariants as (Hinv & Hty & _).
  split; [reflexivity|].
  apply (UpdateItem_same_bounds store123 2 origin half Hinv Hty). reflexivity.
Defined.

(** X14: [UpdateItem] of an id that is not present does not fail cleanly.
    The subscript inserts the id with index 0: on the empty store the write
    to [elementVector[0]] is outside the vector, and on any other store the
    box in slot 0, which belongs to another id, is overwritten and the
    absent id is now reported present. *)
Theorem UpdateItem_absent (s : SpatialPartitioner) (id : Z) (center extents : Vector3) :
  idToIndex s !! id = None ->
  (elementVector s = [] -> UpdateItem id center extents s = None) /\
  (elementVector s <> [] ->
   exists s',
     UpdateItem id center extents s = Some (tt, s') /\
     elementVector s' = <[0%nat := AABB_ctor id center extents]> (elementVector s) /\
     first_box s' = Some (AABB_ctor id center extents) /\
     idToIndex s' = <[id := 0]> (idToIndex s) /\
     HasItem id s' = Some (true, s')).
Proof.
  intros Hnone. unfold UpdateItem, mbind, M_bind, map.subscript. rewrite Hnone.
  unfold vec.set. cbn [elementVector idToIndex].
  change (size_t_cast 0) with 0. split.
  - intros ->. reflexivity.
  - intros Hne. destruct (elementVector s) as [|a v] eqn:Hv; [congruence|].
    rewrite in_range_true by (cbn [length]; lia).
    eexists. split; [reflexivity|]. cbn [elementVector idToIndex].
    split; [reflexivity|]. split; [reflexivity|]. split; [reflexivity|].
    unfold HasItem, map.found. cbn [idToIndex]. rewrite lookup_insert_eq.
    rewrite bool_decide_eq_true_2 by eauto. reflexivity.
Qed.

Lemma UpdateItem_absent_witness :
  idToIndex store123 !! 9 = None /\
  UpdateItem 9 far half SpatialPartitioner_ctor = None /\
  exists s',
    UpdateItem 9 far half store123 = Some (tt, s') /\
    first_box store123 = Some (AABB_ctor 1 origin half) /\
    first_box s' = Some (AABB_ctor 9 far half) /\
    bounds_of s' 1 = Some (AABB_ctor 9 far half).
Proof.
  split; [reflexivity|].
  destruct (UpdateItem_absent SpatialPartitioner_ctor 9 far half eq_refl) as [Hempty _].
  split; [apply Hempty; reflexivity|].
  destruct (UpdateItem_absent store123 9 far half eq_refl) as [_ Hfull].
  destruct Hfull as (s' & Hrun & Hv & Hfirst & Hm & _); [discriminate|].
  exists s'. split; [exact Hrun|]. split; [reflexivity|]. split; [exact Hfirst|].
  unfold bounds_of. rewrite Hm, Hv. reflexivity.
Defined.

(** X15: [RemoveItem] of an id that is not present is not a no-op on a
    store that holds a box: the subscript inserts the id with index 0, so
    the box in slot 0, which belongs to another id, is the one removed.
    The store shrinks by one box and no remaining box carries the victim's
    id; when two or more boxes were stored the victim's map entry survives,
    so [HasItem] still answers true for it. *)
Theorem RemoveItem_absent (s : SpatialPartitioner) (id : Z) (victim : AABB) :
  store_inv s -> typed s ->
  idToIndex s !! id = None ->
  first_box s = Some victim ->
  exists s',
    RemoveItem id s = Some (tt, s') /\
    S (length (elementVector s')) = length (elementVector s) /\
    (IdFromAABB victim ∉ (IdFromAABB <$> elementVector s')) /\
    idToIndex s' !! id = None /\
    ((2 <= length (elementVector s))%nat ->
     HasItem (IdFromAABB victim) s' = Some (true, s')).
Proof.
  intros Hinv [_ Hsz] Hnone Hfirst.
  pose proof (inv_ids_NoDup s Hinv) as Hnd.
  pose proof (proj1 (inv_slot_key _ Hinv _ _ Hfirst)) as Hvic.
  destruct s as [v m]. unfold first_box in Hfirst.
  cbn [elementVector idToIndex] in *.
  destruct v as [|a tl]; [discriminate Hfirst|]. injection Hfirst as ->.
  destruct tl as [|b tl] using rev_ind.
  - (* one box: the clear branch *)
    exists SpatialPartitioner_ctor. split; [reflexivity|]. split; [reflexivity|].
    split; [cbn; apply not_elem_of_nil|]. split; [apply lookup_empty|].
    cbn [length]. lia.
  - clear IHtl. rename tl into w, b into last.
    change (victim :: w ++ [last]) with ((victim :: w) ++ [last]) in *.
    rewrite length_app in Hsz. cbn [length] in Hsz.
    exists {| elementVector := last :: w; idToIndex := <[IdFromAABB last := 0]> m |}.
    split.
    + unfold RemoveItem, mbind, M_bind, vec.size. cbn [elementVector idToIndex].
      rewrite length_app. cbn [length].
      rewrite (proj2 (Z.ltb_lt 1 _)) by lia.
      unfold RemoveItem_swap, mbind, M_bind, map.subscript, vec.size.
      cbn [elementVector idToIndex]. rewrite Hnone. cbn [elementVector idToIndex].
      rewrite length_app. cbn [length]. change (size_t_cast 0) with 0.
      rewrite size_t_cast_id by lia.
      rewrite (proj2 (Z.eqb_neq 0 _)) by lia.
      unfold vec.get, vec.set, vec.pop_back, map.erase, map.assign.
      cbn [elementVector idToIndex]. rewrite length_app. cbn [length].
      rewrite in_range_true by lia.
      replace (Z.to_nat (Z.of_nat (S (length w) + 1) - 1))
        with (length (victim :: w) + 0)%nat by (cbn [length]; lia).
      rewrite lookup_app_r by lia.
      replace (length (victim :: w) + 0 - length (victim :: w))%nat with 0%nat by lia.
      cbn [lookup list_lookup elementVector idToIndex].
      rewrite in_range_true by (rewrite length_app; cbn [length]; lia).
      match goal with |- context [<[?i := ?a]> ?l] =>
        set (v1 := <[i := a]> l) end.
      assert (v1 = last :: (w ++ [last])) as -> by reflexivity.
      cbn [elementVector idToIndex].
      replace (removelast (last :: w ++ [last])) with (last :: w)
        by (symmetry; apply (removelast_last (last :: w) last)). rewrite delete_insert_id by exact Hnone.
      reflexivity.
    + cbn [elementVector idToIndex]. split; [rewrite length_app; cbn; lia|].
      rewrite fmap_app in Hnd. cbn [fmap list_fmap] in Hnd.
      apply NoDup_cons in Hnd as [Hnotin _].
      split; [|split].
      * cbn [fmap list_fmap]. intros Hin. apply Hnotin.
        apply elem_of_cons in Hin as [->|Hin]; apply elem_of_app;
          [right; left|left; exact Hin].
      * rewrite lookup_insert_ne; [exact Hnone|]. intros E.
        assert (Hl : m !! IdFromAABB last = Some (Z.of_nat (length (victim :: w)))).
        { apply (inv_slot_key _ Hinv). cbn [elementVector].
          rewrite lookup_app_r, Nat.sub_diag by lia. reflexivity. }
        rewrite E, Hnone in Hl. discriminate Hl.
      * intros _. unfold HasItem, map.found. cbn [idToIndex].
        rewrite bool_decide_eq_true_2; [reflexivity|].
        destruct (decide (IdFromAABB last = IdFromAABB victim)) as [->|Hne].
        -- rewrite lookup_insert_eq. eauto.
        -- rewrite lookup_insert_ne by exact Hne. rewrite Hvic. eauto.
Qed.

Lemma RemoveItem_absent_witness :
  idToIndex store123 !! 9 = None /\
  first_box store123 = Some (AABB_ctor 1 origin half) /\
  exists s',
    RemoveItem 9 store123 = Some (tt, s') /\
    S (length (elementVector s')) = 3%nat /\
    (1 ∉ (IdFromAABB <$> elementVector s')) /\
    HasItem 1 s' = Some (true, s').
Proof.
  destruct store123_invariants as (Hinv & Hty & _).
  split; [reflexivity|]. split; [reflexivity|].
  destruct (RemoveItem_absent store123 9 (AABB_ctor 1 origin half) Hinv Hty)
    as (s' & Hrun & Hlen & Hgone & _ & Hstale); [reflexivity|reflexivity|].
  exists s'. split; [exact Hrun|]. split; [exact Hlen|]. split; [exact Hgone|].
  apply Hstale. vm_compute. lia.
Defined.

(** X16: [AddItem] followed by [UpdateItem] of the same id is [AddItem] with
    the later bounds, on a store of fewer than [2^31] boxes. *)
Theorem AddItem_then_UpdateItem (s : SpatialPartitioner) (id : Z)
    (center extents center' extents' : Vector3) :
  Z.of_nat (length (elementVector s)) < 2 ^ 31 ->
  exists s1,
    AddItem id center extents s = Some (tt, s1) /\
    UpdateItem id center' extents' s1 = AddItem id center' extents' s.
Proof.
  intros Hlen. eexists. split; [apply AddItem_run|]. rewrite AddItem_run.
  assert (Hn : int_cast (Z.of_nat (length (elementVector s)))
               = Z.of_nat (length (elementVector s))).
  { apply int_cast_id. unfold is_int32. change (2 ^ 31) with 2147483648 in *. lia. }
  rewrite Hn.
  unfold UpdateItem, mbind, M_bind, map.subscript. cbn [elementVector idToIndex].
  rewrite lookup_insert_eq.
  rewrite size_t_cast_id
    by (change (2 ^ 64) with 18446744073709551616;
        change (2 ^ 31) with 2147483648 in *; lia).
  unfold vec.set. cbn [elementVector idToIndex].
  rewrite in_range_true by (rewrite length_app; cbn [length]; lia).
  rewrite Nat2Z.id.
  replace (length (elementVector s)) with (length (elementVector s) + 0)%nat at 1 by lia.
  rewrite insert_app_r. reflexivity.
Qed.

Lemma AddItem_then_UpdateItem_witness :
  exists s1,
    AddItem 7 origin half store123 = Some (tt, s1) /\
    UpdateItem 7 far wide s1 = AddItem 7 far wide store123.
Proof.
  apply (AddItem_then_UpdateItem store123 7 origin half far wide). reflexivity.
Defined.

(** In a store that satisfies the invariants and holds no box, the map is
    empty. *)
Lemma store_inv_no_box (m : gmap Z Z) :
  store_inv {| elementVector := []; idToIndex := m |} -> m = ∅.
Proof.
  intros Hinv. apply map_eq. intros k. rewrite lookup_empty.
  destruct (m !! k) as [i|] eqn:Hk; [|reflexivity].
  pose proof (proj1 (inv_dense _ Hinv) _ _ Hk) as Hr. cbn in Hr. lia.
Qed.

(** X17: on a store that satisfies the invariants and holds fewer than
    [2^31] boxes, [AddItem] of an absent id followed by [RemoveItem] of that
    id gives the store back, vector and map. *)
Theorem AddItem_then_RemoveItem (s : SpatialPartitioner) (id : Z)
    (center extents : Vector3) :
  store_inv s ->
  idToIndex s !! id = None ->
  Z.of_nat (length (elementVector s)) < 2 ^ 31 ->
  exists s1,
    AddItem id center extents s = Some (tt, s1) /\
    RemoveItem id s1 = Some (tt, s).
Proof.
  intros Hinv Hfresh Hlen. change (2 ^ 31) with 2147483648 in Hlen.
  destruct s as [v m]. cbn [elementVector idToIndex] in *.
  eexists. split; [apply AddItem_run|]. cbn [elementVector idToIndex].
  assert (Hn : int_cast (Z.of_nat (length v)) = Z.of_nat (length v)).
  { apply int_cast_id. unfold is_int32. change (2 ^ 31) with 2147483648. lia. }
  rewrite Hn.
  unfold RemoveItem, mbind, M_bind, vec.size. cbn [elementVector idToIndex].
  rewrite length_app. cbn [length].
  destruct (Z.ltb_spec 1 (Z.of_nat (length v + 1))) as [Hbig|Hsmall].
  - unfold RemoveItem_swap, mbind, M_bind, map.subscript, vec.size.
    cbn [elementVector idToIndex]. rewrite lookup_insert_eq.
    cbn [elementVector idToIndex]. rewrite length_app. cbn [length].
    rewrite !size_t_cast_id by (change (2 ^ 64) with 18446744073709551616; lia).
    rewrite (proj2 (Z.eqb_eq _ _)) by lia.
    unfold map.erase, vec.pop_back. cbn [elementVector idToIndex].
    destruct (v ++ [AABB_ctor id center extents]) eqn:Hv; [destruct v; discriminate|].
    rewrite <- Hv, removelast_last, delete_insert_id by exact Hfresh. reflexivity.
  - assert (v = []) as -> by (destruct v; [reflexivity|cbn in Hsmall; lia]).
    rewrite (store_inv_no_box m Hinv). reflexivity.
Qed.

Lemma AddItem_then_RemoveItem_witness :
  store_inv store123 /\ idToIndex store123 !! 7 = None /\
  exists s1,
    AddItem 7 far half store123 = Some (tt, s1) /\
    RemoveItem 7 s1 = Some (tt, store123).
Proof.
  destruct store123_invariants as (Hinv & _ & _).
  split; [exact Hinv|]. split; [reflexivity|].
  apply (AddItem_then_RemoveItem store123 7 far half Hinv); reflexivity.
Defined.

(** X18: from a store that satisfies the invariants, whose boxes came out
    of the constructor, every permitted call (an add of an absent id the
    lane carries, below [2^31] boxes; an update or a removal of a present
    id) returns, without an access outside the vector, and the store it
    leaves satisfies the invariants again. *)
Theorem permitted_call_keeps_invariants (s : SpatialPartitioner) (c : call) :
  store_inv s -> typed s -> constructed s ->
  permitted s c -> representable s c ->
  exists s',
    run_call c s = Some (tt, s') /\
    store_inv s' /\ typed s' /\ constructed s'.
Proof.
  intros Hinv Hty Hcons Hperm Hrep. destruct c as [id ce ex|id ce ex|id].
  - eexists. split; [apply AddItem_run|].
    eapply AddItem_preserves; [exact Hinv|exact Hty|exact Hcons|exact Hperm|exact Hrep|].
    apply AddItem_run.
  - apply UpdateItem_preserves; assumption.
  - apply RemoveItem_preserves; assumption.
Qed.

Lemma permitted_call_keeps_invariants_witness :
  permitted store123 (CallRemove 1) /\
  exists s',
    RemoveItem 1 store123 = Some (tt, s') /\
    store_inv s' /\ typed s' /\ constructed s'.
Proof.
  destruct store123_invariants as (Hinv & Hty & Hcons).
  assert (Hp : permitted store123 (CallRemove 1)).
  { split; [unfold is_int32; lia|eexists; reflexivity]. }
  split; [exact Hp|].
  apply (permitted_call_keeps_invariants store123 (CallRemove 1) Hinv Hty Hcons Hp I).
Defined.

(** ** The handle registry *)

(** X19: [AllocSpatialPartitioner], below [INT_MAX] handles, returns the
    counter and steps it by one; the handle it returns holds an empty
    partitioner afterwards, whatever it held before, and the partitioners
    under all other handles are untouched.  When every handle in the map
    came from an earlier allocation the returned handle is new, and that
    stays so for the next allocation. *)
Theorem AllocSpatialPartitioner_fresh (center size : Vector3) (r : Registry) :
  nextSpatialPartitionerId r < INT_MAX ->
  exists r',
    AllocSpatialPartitioner center size r = Some (nextSpatialPartitionerId r, r') /\
    nextSpatialPartitionerId r' = nextSpatialPartitionerId r + 1 /\
    SpatialPartitionerMap r' !! nextSpatialPartitionerId r = Some SpatialPartitioner_ctor /\
    (forall h, h <> nextSpatialPartitionerId r ->
       SpatialPartitionerMap r' !! h = SpatialPartitionerMap r !! h) /\
    (handles_allocated r ->
       SpatialPartitionerMap r !! nextSpatialPartitionerId r = None /\
       handles_allocated r').
Proof.
  intros Hlt. unfold AllocSpatialPartitioner.
  rewrite (proj2 (Z.ltb_lt _ _) Hlt). eexists. split; [reflexivity|].
  cbn [SpatialPartitionerMap nextSpatialPartitionerId].
  split; [reflexivity|]. split; [apply lookup_insert_eq|]. split.
  - intros h Hne. apply lookup_insert_ne. congruence.
  - intros [H0 Hall]. split.
    + destruct (SpatialPartitionerMap r !! nextSpatialPartitionerId r) as [s|] eqn:E;
        [|reflexivity]. apply Hall in E. lia.
    + split; cbn [SpatialPartitionerMap nextSpatialPartitionerId]; [lia|].
      intros h s Hh. apply lookup_insert_Some in Hh as [[<- _]|[_ Hh]]; [lia|].
      apply Hall in Hh. lia.
Qed.

Lemma AllocSpatialPartitioner_fresh_witness :
  exists r1 r2,
    AllocSpatialPartitioner origin half Registry_init = Some (0, r1) /\
    AllocSpatialPartitioner origin half r1 = Some (1, r2) /\
    SpatialPartitionerMap r2 !! 0 = Some SpatialPartitioner_ctor /\
    SpatialPartitionerMap r2 !! 1 = Some SpatialPartitioner_ctor /\
    handles_allocated r2.
Proof.
  assert (Hinit : handles_allocated Registry_init).
  { split; [reflexivity|]. intros h s H. cbn in H. rewrite lookup_empty in H.
    discriminate H. }
  destruct (AllocSpatialPartitioner_fresh origin half Registry_init)
    as (r1 & H1 & Hn1 & Hm1 & _ & Hw1); [reflexivity|].
  destruct (Hw1 Hinit) as [_ Ha1].
  destruct (AllocSpatialPartitioner_fresh origin half r1)
    as (r2 & H2 & Hn2 & Hm2 & Hf2 & Hw2); [rewrite Hn1; reflexivity|].
  rewrite Hn1 in *. cbn in H1, H2, Hm1, Hm2, Hf2.
  exists r1, r2. split; [exact H1|]. split; [exact H2|].
  split; [rewrite Hf2 by discriminate; exact Hm1|]. split; [exact Hm2|].
  apply Hw2, Ha1.
Defined.

Lemma at_handle_inv {A : Type} (h : Z) (f : M A) (r : Registry) (a : A) (r' : Registry) :
  at_handle h f r = Some (a, r') ->
  exists s',
    f (default SpatialPartitioner_ctor (SpatialPartitionerMap r !! h)) = Some (a, s') /\
    r' = {| SpatialPartitionerMap := <[h := s']> (SpatialPartitionerMap r);
            nextSpatialPartitionerId := nextSpatialPartitionerId r |}.
Proof.
  unfold at_handle. destruct (f _) as [[a' s']|]; [|discriminate].
  intros H. injection H as <- <-. eauto.
Qed.

Lemma run_export_inv (h : Z) (c : export_call) (r : Registry)
    (res : option (Z * list Z)) (r' : Registry) :
  run_export h c r = Some (res, r') ->
  exists s',
    r' = {| SpatialPartitionerMap := <[h := s']> (SpatialPartitionerMap r);
            nextSpatialPartitionerId := nextSpatialPartitionerId r |}.
Proof.
  destruct c; cbn [run_export];
    unfold SpatialPartitionerAddItem, SpatialPartitionerUpdateItem,
      SpatialPartitionerRemoveItem, SpatialPartitionerContainedBy,
      SpatialPartitionerIntersectedBy, SpatialPartitionerIntersectedByOrig,
      SpatialPartitionerHasItem;
    match goal with |- context [at_handle ?h ?f ?r] =>
      destruct (at_handle h f r) as [[a r1]|] eqn:E end;
    try discriminate; intros H; injection H as _ <-;
    apply at_handle_inv in E as (s' & _ & ->); eauto.
Qed.

(** X20: a call of the exported interface on one handle never touches the
    partitioner under another handle, nor the handle counter; on a handle
    that is in the map it keeps the map's handles the allocated ones. *)
Theorem export_call_frame (h : Z) (c : export_call) (r : Registry)
    (res : option (Z * list Z)) (r' : Registry) :
  run_export h c r = Some (res, r') ->
  nextSpatialPartitionerId r' = nextSpatialPartitionerId r /\
  (forall h', h' <> h ->
     SpatialPartitionerMap r' !! h' = SpatialPartitionerMap r !! h') /\
  (is_Some (SpatialPartitionerMap r !! h) -> handles_allocated r ->
   handles_allocated r').
Proof.
  intros Hrun. apply run_export_inv in Hrun as (s' & ->).
  cbn [SpatialPartitionerMap nextSpatialPartitionerId].
  split; [reflexivity|]. split.
  - intros h' Hne. apply lookup_insert_ne. congruence.
  - intros [s Hs] [H0 Hall]. split; [exact H0|].
    cbn [SpatialPartitionerMap nextSpatialPartitionerId].
    intros k sk Hk. apply lookup_insert_Some in Hk as [[<- _]|[_ Hk]].
    + eapply Hall, Hs.
    + eapply Hall, Hk.
Qed.

Lemma export_call_frame_witness :
  exists r',
    run_export 5 (ExpAdd 2 far half) registry1 = Some (None, r') /\
    nextSpatialPartitionerId r' = 1 /\
    SpatialPartitionerMap r' !! 0 = Some store1.
Proof.
  set (r' := {| SpatialPartitionerMap :=
                  <[5 := exec (AddItem 2 far half) SpatialPartitioner_ctor]>
                    (SpatialPartitionerMap registry1);
                nextSpatialPartitionerId := 1 |}).
  assert (E : run_export 5 (ExpAdd 2 far half) registry1 = Some (None, r'))
    by reflexivity.
  destruct (export_call_frame 5 (ExpAdd 2 far half) registry1 None r' E)
    as (Hn & Hother & _).
  exists r'. split; [exact E|]. split; [exact Hn|].
  rewrite Hother by discriminate. reflexivity.
Defined.

(** X21: a handle that is not in the map is no error.  The subscript
    inserts a default constructed partitioner under it: the three queries
    return 0 and leave the buffer alone, [HasItem] and [RemoveItem] return,
    [AddItem] stores its box in the new partitioner, and the registry now
    holds that partitioner.  [UpdateItem] alone is undefined there: it
    writes to slot 0 of the empty vector. *)
Theorem unknown_handle (h : Z) (r : Registry) (id : Z) (c e : Vector3)
    (returnArray : list Z) (N : Z) :
  SpatialPartitionerMap r !! h = None ->
  run_export h (ExpContainedBy c e returnArray N) r
    = Some (Some (0, returnArray), materialised h r) /\
  run_export h (ExpIntersectedBy c e returnArray N) r
    = Some (Some (0, returnArray), materialised h r) /\
  run_export h (ExpIntersectedByOrig c e returnArray N) r
    = Some (Some (0, returnArray), materialised h r) /\
  run_export h (ExpHasItem id) r = Some (None, materialised h r) /\
  run_export h (ExpRemove id) r = Some (None, materialised h r) /\
  run_export h (ExpAdd id c e) r
    = Some (None, {| SpatialPartitionerMap :=
                       <[h := {| elementVector := [AABB_ctor id c e];
                                 idToIndex := {[id := 0]} |}]>
                         (SpatialPartitionerMap r);
                     nextSpatialPartitionerId := nextSpatialPartitionerId r |}) /\
  run_export h (ExpUpdate id c e) r = None /\
  SpatialPartitionerMap (materialised h r) !! h = Some SpatialPartitioner_ctor.
Proof.
  intros Hnone. unfold materialised. rewrite Hnone.
  cbn [run_export default].
  unfold SpatialPartitionerContainedBy, SpatialPartitionerIntersectedBy,
    SpatialPartitionerIntersectedByOrig, SpatialPartitionerHasItem,
    SpatialPartitionerRemoveItem, SpatialPartitionerAddItem,
    SpatialPartitionerUpdateItem, at_handle.
  rewrite Hnone. cbn [default].
  repeat split; try reflexivity.
  cbn [SpatialPartitionerMap]. apply lookup_insert_eq.
Qed.

Lemma unknown_handle_witness :
  SpatialPartitionerMap registry1 !! 7 = None /\
  run_export 7 (ExpIntersectedBy origin half [9] 1) registry1
    = Some (Some (0, [9]), materialised 7 registry1) /\
  run_export 7 (ExpUpdate 1 origin half) registry1 = None /\
  SpatialPartitionerMap (materialised 7 registry1) !! 7 = Some SpatialPartitioner_ctor.
Proof.
  assert (Hn : SpatialPartitionerMap registry1 !! 7 = None) by reflexivity.
  destruct (unknown_handle 7 registry1 1 origin half [9] 1 Hn)
    as (_ & Hq & _ & _ & _ & _ & Hu & Hm).
  split; [exact Hn|]. split; [exact Hq|]. split; [exact Hu|exact Hm].
Defined.

(** X22: the exported [HasItem] tells its caller nothing.  It returns no
    value, it returns for every handle and item, and the registry it leaves
    does not depend on the item: it is the registry it found when the
    handle is in the map. *)
Theorem exported_HasItem_is_blind (h itemHandle : Z) (r : Registry) :
  SpatialPartitionerHasItem h itemHandle r = Some (tt, materialised h r) /\
  (is_Some (SpatialPartitionerMap r !! h) -> materialised h r = r).
Proof.
  split; [reflexivity|]. intros [s Hs]. unfold materialised. rewrite Hs.
  cbn [default]. rewrite insert_id by exact Hs. destruct r; reflexivity.
Qed.

Lemma exported_HasItem_is_blind_witness :
  SpatialPartitionerHasItem 0 1 registry1 = Some (tt, registry1) /\
  SpatialPartitionerHasItem 0 99 registry1 = Some (tt, registry1).
Proof.
  destruct (exported_HasItem_is_blind 0 1 registry1) as [H1 Hsame].
  destruct (exported_HasItem_is_blind 0 99 registry1) as [H99 _].
  rewrite Hsame in H1, H99 by (eexists; reflexivity).
  split; [exact H1|exact H99].
Defined.

(** X23: a call on the handle the counter will hand out next is silently
    accepted, and the allocation that returns this handle later replaces
    the partitioner by an empty one: the box stored through the stray call
    is lost. *)
Theorem allocation_resets_stray_store (r : Registry) (id : Z)
    (c e center size : Vector3) :
  nextSpatialPartitionerId r < INT_MAX ->
  exists r1 s1 r2,
    SpatialPartitionerAddItem (nextSpatialPartitionerId r) id c e r = Some (tt, r1) /\
    SpatialPartitionerMap r1 !! nextSpatialPartitionerId r = Some s1 /\
    AABB_ctor id c e ∈ elementVector s1 /\
    AllocSpatialPartitioner center size r1 = Some (nextSpatialPartitionerId r, r2) /\
    SpatialPartitionerMap r2 !! nextSpatialPartitionerId r = Some SpatialPartitioner_ctor.
Proof.
  intros Hlt. unfold SpatialPartitionerAddItem, at_handle. rewrite AddItem_run.
  eexists _, _, _. split; [reflexivity|].
  cbn [SpatialPartitionerMap nextSpatialPartitionerId elementVector].
  split; [apply lookup_insert_eq|]. split; [apply elem_of_app; right; left|].
  unfold AllocSpatialPartitioner.
  cbn [SpatialPartitionerMap nextSpatialPartitionerId].
  rewrite (proj2 (Z.ltb_lt _ _) Hlt). split; [reflexivity|].
  cbn [SpatialPartitionerMap]. apply lookup_insert_eq.
Qed.

Lemma allocation_resets_stray_store_witness :
  exists r1 s1 r2,
    SpatialPartitionerAddItem 1 4 far half registry1 = Some (tt, r1) /\
    SpatialPartitionerMap r1 !! 1 = Some s1 /\
    AABB_ctor 4 far half ∈ elementVector s1 /\
    AllocSpatialPartitioner origin origin r1 = Some (1, r2) /\
    SpatialPartitionerMap r2 !! 1 = Some SpatialPartitioner_ctor.
Proof.
  apply (allocation_resets_stray_store registry1 4 far half origin origin).
  reflexivity.
Defined.

Lemma AllocSpatialPartitioner_run (center size : Vector3) (r : Registry) :
  nextSpatialPartitionerId r < INT_MAX ->
  exists r',
    AllocSpatialPartitioner center size r = Some (nextSpatialPartitionerId r, r') /\
    SpatialPartitionerMap r' !! nextSpatialPartitionerId r = Some SpatialPartitioner_ctor.
Proof.
  intros Hlt. unfold AllocSpatialPartitioner.
  rewrite (proj2 (Z.ltb_lt _ _) Hlt). eexists. split; [reflexivity|].
  apply lookup_insert_eq.
Qed.

Lemma intersects_self (a : AABB) : intersects a a = negb (inverted_axis a).
Proof.
  rewrite intersects_lanes. unfold inverted_axis.
  cbn [forallb existsb]. unfold Binary32.gt, Binary32.lt.
  rewrite !orb_diag, !andb_true_r, !orb_false_r, !negb_orb. reflexivity.
Qed.

Lemma id_roundtrip_iff_aux (id : Z) (c e : Vector3) :
  is_int32 id -> carried_by_lane id -> IdFromAABB (AABB_ctor id c e) = id.
Proof.
  intros Hid Hc. apply ctor_id_stable; [exact Hid|].
  apply id_stable_ranges; assumption.
Qed.

(** X24: the sequence of the test program, for any box.  After an
    allocation and [SpatialPartitionerAddItem] of an id the lane carries,
    [SpatialPartitionerIntersectedBy] with the centre and extents of that
    very box, a capacity of at least one and a buffer of that size, returns
    1 and reports the id, unless the box is inverted on some axis; the
    query leaves the registry as it was. *)
Theorem allocate_add_query (r : Registry) (id : Z) (center extents a b : Vector3)
    (returnArray : list Z) (N : Z) :
  nextSpatialPartitionerId r < INT_MAX ->
  is_int32 id -> carried_by_lane id ->
  inverted_axis (AABB_ctor id center extents) = false ->
  1 <= N -> N <= Z.of_nat (length returnArray) ->
  exists h r1 r2 out,
    AllocSpatialPartitioner a b r = Some (h, r1) /\
    SpatialPartitionerAddItem h id center extents r1 = Some (tt, r2) /\
    SpatialPartitionerIntersectedBy h center extents returnArray N r2
    = Some ((1, out), r2) /\
    reported (1, out) = [id].
Proof.
  intros Hlt Hid Hcar Hinv H1 HN.
  destruct (AllocSpatialPartitioner_run a b r Hlt) as (r1 & Halloc & Hm1).
  exists (nextSpatialPartitionerId r), r1.
  set (h := nextSpatialPartitionerId r) in *.
  set (s1 := {| elementVector := [AABB_ctor id center extents];
                idToIndex := {[id := 0]} |}).
  exists {| SpatialPartitionerMap := <[h := s1]> (SpatialPartitionerMap r1);
            nextSpatialPartitionerId := nextSpatialPartitionerId r1 |}.
  assert (Hhit : intersects (AABB_ctor (-1) center extents)
                            (AABB_ctor id center extents) = true).
  { destruct (predicates_same_bounds (AABB_ctor (-1) center extents)
                (AABB_ctor id center extents) (AABB_ctor id center extents)
                (AABB_ctor id center extents)) as [-> _];
      [apply same_bounds_ctor|apply same_bounds_ctor|].
    rewrite intersects_self, Hinv. reflexivity. }
  assert (Hids : matching_ids intersects center extents s1 = [id]).
  { unfold matching_ids, matching, s1. cbn [elementVector].
    rewrite filter_cons_True, filter_nil by exact Hhit. cbn [fmap list_fmap].
    f_equal. apply id_roundtrip_iff_aux; assumption. }
  eexists. split; [exact Halloc|]. split.
  - unfold SpatialPartitionerAddItem, at_handle. rewrite Hm1. reflexivity.
  - unfold SpatialPartitionerIntersectedBy, at_handle.
    cbn [SpatialPartitionerMap nextSpatialPartitionerId].
    rewrite lookup_insert_eq. cbn [default]. unfold IntersectedBy.
    rewrite query_bounded by assumption.
    change (Datatypes.id s1) with s1.
    rewrite Hids. unfold matching, s1 at 1. cbn [elementVector].
    rewrite filter_cons_True, filter_nil by exact Hhit.
    replace (take (Z.to_nat N) [id]) with [id]
      by (rewrite take_ge by (cbn [length]; lia); reflexivity).
    cbn [length]. rewrite Z.min_l by lia. rewrite insert_insert_eq.
    split; [reflexivity|]. reflexivity.
Qed.

Lemma allocate_add_query_witness :
  exists h r1 r2 out,
    AllocSpatialPartitioner origin origin Registry_init = Some (h, r1) /\
    SpatialPartitionerAddItem h 1 origin half r1 = Some (tt, r2) /\
    SpatialPartitionerIntersectedBy h origin half [0; 0] 2 r2 = Some ((1, out), r2) /\
    reported (1, out) = [1].
Proof.
  apply (allocate_add_query Registry_init 1 origin half origin origin [0; 0] 2).
  - reflexivity.
  - unfold is_int32. lia.
  - unfold carried_by_lane, INT_MIN. lia.
  - reflexivity.
  - lia.
  - cbn. lia.
Defined.

(** ** The colour channels of the exporter *)

Lemma byte_range (v : Z) : 0 <= Z.land v 255 < 256.
Proof.
  change 255 with (Z.ones 8). rewrite Z.land_ones by lia.
  apply Z.mod_pos_bound. reflexivity.
Qed.

Lemma channels_checked :
  forallb (fun k => Binary32.le 0 (channel (Z.of_nat k))
                    && Binary32.le (channel (Z.of_nat k)) f_1_0)
    (seq 0 256) = true.
Proof. vm_compute. reflexivity. Qed.

Lemma channel_range (k : Z) :
  0 <= k < 256 ->
  Binary32.le 0 (channel k) = true /\ Binary32.le (channel k) f_1_0 = true.
Proof.
  intros Hk. pose proof channels_checked as H.
  rewrite forallb_forall in H. specialize (H (Z.to_nat k)).
  rewrite Z2Nat.id in H by lia. apply andb_prop, H. apply in_seq. lia.
Qed.

(** X25: for every [int], [getR], [getG] and [getB] return a float between
    0.0 and 1.0, both included. *)
Theorem colour_channels_in_unit_interval (raw : Z) :
  (Binary32.le 0 (getR raw) = true /\ Binary32.le (getR raw) f_1_0 = true) /\
  (Binary32.le 0 (getG raw) = true /\ Binary32.le (getG raw) f_1_0 = true) /\
  (Binary32.le 0 (getB raw) = true /\ Binary32.le (getB raw) f_1_0 = true).
Proof.
  repeat split; apply channel_range, byte_range.
Qed.

Lemma channels_increase_checked :
  forallb (fun k => Binary32.lt (channel (Z.of_nat k)) (channel (Z.of_nat (S k))))
    (seq 0 255) = true.
Proof. vm_compute. reflexivity. Qed.

Lemma SFltb_trans (f g h : spec_float) :
  SFltb f g = true -> SFltb g h = true -> SFltb f h = true.
Proof.
  unfold SFltb, SFcompare.
  destruct f as [[]|[]| |[] mf ef], g as [[]|[]| |[] mg eg], h as [[]|[]| |[] mh eh];
    try discriminate; try reflexivity; intros Hfg Hgh; sf_order.
Qed.

Lemma channel_increasing (k d : nat) :
  (k + S d < 256)%nat ->
  Binary32.lt (channel (Z.of_nat k)) (channel (Z.of_nat (k + S d))) = true.
Proof.
  pose proof channels_increase_checked as H. rewrite forallb_forall in H.
  induction d as [|d IH]; intros Hlt.
  - replace (k + 1)%nat with (S k) by lia. apply H, in_seq. lia.
  - unfold Binary32.lt in *.
    apply (SFltb_trans _ (Binary32.decode (channel (Z.of_nat (k + S d))))).
    + apply IH. lia.
    + replace (k + S (S d))%nat with (S (k + S d)) by lia. apply H, in_seq. lia.
Qed.

(** X26: the channels keep the order of the bytes: a colour with a smaller
    red (green, blue) byte has a smaller red (green, blue) channel, so that
    distinct bytes never give the same channel. *)
Theorem colour_channels_keep_order (raw raw' : Z) :
  (Z.land (Z.shiftr raw 16) 255 < Z.land (Z.shiftr raw' 16) 255 ->
   Binary32.lt (getR raw) (getR raw') = true) /\
  (Z.land (Z.shiftr raw 8) 255 < Z.land (Z.shiftr raw' 8) 255 ->
   Binary32.lt (getG raw) (getG raw') = true) /\
  (Z.land raw 255 < Z.land raw' 255 ->
   Binary32.lt (getB raw) (getB raw') = true).
Proof.
  assert (Hgen : forall v v', Z.land v 255 < Z.land v' 255 ->
            Binary32.lt (channel (Z.land v 255)) (channel (Z.land v' 255)) = true).
  { intros v v' Hlt. pose proof (byte_range v) as Hv. pose proof (byte_range v') as Hv'.
    pose proof (channel_increasing (Z.to_nat (Z.land v 255))
                  (Z.to_nat (Z.land v' 255) - Z.to_nat (Z.land v 255) - 1)) as H.
    replace (Z.to_nat (Z.land v 255)
             + S (Z.to_nat (Z.land v' 255) - Z.to_nat (Z.land v 255) - 1))%nat
      with (Z.to_nat (Z.land v' 255)) in H by lia.
    rewrite !Z2Nat.id in H by lia. apply H. lia. }
  repeat split; apply Hgen.
Qed.

Lemma colour_channels_keep_order_witness :
  Binary32.lt (getR 0x673AB7) (getR 0xBA68C8) = true /\
  Binary32.lt (getG 0x673AB7) (getG 0xBA68C8) = true /\
  Binary32.lt (getB 0x673AB7) (getB 0xBA68C8) = true.
Proof.
  destruct (colour_channels_keep_order 0x673AB7 0xBA68C8) as (Hr & Hg & Hb).
  split; [apply Hr; reflexivity|]. split; [apply Hg; reflexivity|apply Hb; reflexivity].
Defined.

(** ** What a query reports *)

Lemma matching_ids_spec (pred : AABB -> AABB -> bool) (c e : Vector3)
    (s : SpatialPartitioner) (id : Z) :
  store_inv s ->
  (id ∈ matching_ids pred c e s <->
   exists box, bounds_of s id = Some box /\ pred (AABB_ctor (-1) c e) box = true).
Proof.
  intros Hinv. unfold matching_ids, matching. rewrite list_elem_of_fmap. split.
  - intros (a & -> & Ha). apply list_elem_of_filter in Ha as [Hp Ha].
    apply list_elem_of_lookup in Ha as [n Hn].
    exists a. split; [|exact Hp]. unfold bounds_of.
    rewrite (proj1 (inv_slot_key _ Hinv _ _ Hn)). cbn. rewrite Nat2Z.id. exact Hn.
  - intros (box & Hb & Hp). unfold bounds_of in Hb.
    destruct (idToIndex s !! id) as [i|] eqn:Hi; [|discriminate Hb]. cbn in Hb.
    destruct (inv_key_slot _ Hinv _ _ Hi) as (a & _ & Ha & E).
    rewrite Hb in Ha. injection Ha as <-.
    exists box. split; [symmetry; exact E|].
    apply list_elem_of_filter. split; [exact Hp|].
    eapply list_elem_of_lookup_2, Hb.
Qed.

(** X27: on a store that satisfies the invariants, a query whose capacity
    covers its matches reports exactly the live ids whose stored box its
    predicate accepts against the query box, each of them once. *)
Theorem query_reports_live_matches (q : query_kind) (c e : Vector3)
    (returnArray : list Z) (N : Z) (s : SpatialPartitioner) :
  store_inv s ->
  Z.of_nat (length (matching (predicate_of q) c e s)) <= N ->
  N <= Z.of_nat (length returnArray) ->
  exists r,
    run_query q c e returnArray N s = Some (r, s) /\
    NoDup (reported r) /\
    forall id,
      id ∈ reported r <->
      exists box, bounds_of s id = Some box /\
                  predicate_of q (AABB_ctor (-1) c e) box = true.
Proof.
  intros Hinv HM HN. rewrite run_query_eq, query_all by assumption.
  eexists. split; [reflexivity|]. rewrite reported_query_all. split.
  - apply (sublist_NoDup _ (IdFromAABB <$> elementVector s)).
    + apply (inv_ids_NoDup s Hinv).
    + apply fmap_sublist, sublist_filter.
  - intros id. apply matching_ids_spec, Hinv.
Qed.

Lemma query_reports_live_matches_witness :
  store_inv store123 /\
  exists r,
    run_query Intersected origin half [0; 0; 0] 3 store123 = Some (r, store123) /\
    NoDup (reported r) /\
    (2 ∈ reported r) /\ (9 ∉ reported r).
Proof.
  destruct store123_invariants as (Hinv & _ & _). split; [exact Hinv|].
  destruct (query_reports_live_matches Intersected origin half [0; 0; 0] 3 store123 Hinv)
    as (r & Hrun & Hnd & Hiff); [vm_compute; discriminate|cbn; lia|].
  exists r. split; [exact Hrun|]. split; [exact Hnd|]. split.
  - apply Hiff. exists (AABB_ctor 2 origin half). split; reflexivity.
  - intros Hin. apply Hiff in Hin as (box & Hb & _). discriminate Hb.
Defined.
